(** * goyouscore: the hand-written layers of the YouScore HTTP client

    A shallow embedding of the request pipeline of package [youscore]:
    cache-key derivation ([cacheKey]), secret redaction ([sanitizeURL],
    [isSensitiveParam]), the caching transport decorator ([cachingDoer.Do]),
    the per-route credential selector ([WithAPIKeys], [apiKeyForPath]) and
    the usage classifier ([WithUsageTracking], [aPITypeForPath]).

    Go strings are byte sequences and are modelled by [string]; [[]byte]
    values by [list byte].  The parts of the Go standard library the code
    calls are written out below under their Go names ([strings_HasPrefix],
    [url_QueryEscape], ...); the three that cannot be written out (the
    Unicode case tables, SHA-256 and [url.Parse]) are the fields of the
    class [GoStd]. *)

From Stdlib Require Import String Ascii List ZArith NArith Lia Bool.
From Stdlib Require Import Sorting.Sorted.
From Stdlib.Strings Require Byte.
From Stdlib Require DecimalString.
From stdpp Require Import base option list gmap strings sorting.

Local Open Scope string_scope.
Local Open Scope list_scope.

(** ** Package [strings] *)

Fixpoint strings_HasPrefix (s prefix : string) {struct prefix} : bool :=
  match prefix, s with
  | EmptyString, _ => true
  | String _ _, EmptyString => false
  | String p prefix', String c s' =>
      if Ascii.eqb c p then strings_HasPrefix s' prefix' else false
  end.

(** [s[n:]] and [s[:n]] *)
Fixpoint str_drop (n : nat) (s : string) : string :=
  match n, s with
  | O, _ => s
  | S _, EmptyString => EmptyString
  | S n', String _ s' => str_drop n' s'
  end.

Fixpoint str_take (n : nat) (s : string) : string :=
  match n, s with
  | O, _ => EmptyString
  | S _, EmptyString => EmptyString
  | S n', String c s' => String c (str_take n' s')
  end.

Definition strings_TrimPrefix (s prefix : string) : string :=
  if strings_HasPrefix s prefix then str_drop (String.length prefix) s else s.

(** [strings.Index]: [None] stands for Go's [-1]. *)
Fixpoint strings_Index (s substr : string) : option nat :=
  if strings_HasPrefix s substr then Some O
  else match s with
       | EmptyString => None
       | String _ s' => S <$> strings_Index s' substr
       end.

Definition strings_Contains (s substr : string) : bool :=
  match strings_Index s substr with Some _ => true | None => false end.

(** [strings.Cut]: [(before, after, found)]. *)
Definition strings_Cut (s sep : string) : string * string * bool :=
  match strings_Index s sep with
  | Some i => (str_take i s, str_drop (i + String.length sep) s, true)
  | None => (s, EmptyString, false)
  end.

Definition byte_in (lo hi : ascii) (c : ascii) : bool :=
  (N_of_ascii lo <=? N_of_ascii c)%N && (N_of_ascii c <=? N_of_ascii hi)%N.

Definition is_upper (c : ascii) : bool := byte_in "A" "Z" c.
Definition is_lower (c : ascii) : bool := byte_in "a" "z" c.
Definition is_digit (c : ascii) : bool := byte_in "0" "9" c.
Definition is_alnum (c : ascii) : bool := is_lower c || is_upper c || is_digit c.

(** [c < utf8.RuneSelf] *)
Definition below_RuneSelf (c : ascii) : bool := (N_of_ascii c <? 128)%N.

Fixpoint str_forall (p : ascii -> bool) (s : string) : bool :=
  match s with
  | EmptyString => true
  | String c s' => p c && str_forall p s'
  end.

Fixpoint str_map (f : ascii -> ascii) (s : string) : string :=
  match s with
  | EmptyString => EmptyString
  | String c s' => String (f c) (str_map f s')
  end.

Definition lower_byte (c : ascii) : ascii :=
  if is_upper c then ascii_of_N (N_of_ascii c + 32) else c.

Definition upper_byte (c : ascii) : ascii :=
  if is_lower c then ascii_of_N (N_of_ascii c - 32) else c.

(** ** Types shared with [net/http] and [net/url] *)

Definition error := string.

(** [url.Userinfo] *)
Record Userinfo := mkUserinfo {
  username : string;
  password : string;
  passwordSet : bool
}.

(** [url.URL] *)
Record URL := mkURL {
  Scheme : string;
  Opaque : string;
  User : option Userinfo;
  Host : string;
  Path : string;
  RawPath : string;
  OmitHost : bool;
  ForceQuery : bool;
  RawQuery : string;
  Fragment : string;
  RawFragment : string
}.

Definition set_RawQuery (u : URL) (q : string) : URL :=
  mkURL (Scheme u) (Opaque u) (User u) (Host u) (Path u) (RawPath u)
        (OmitHost u) (ForceQuery u) q (Fragment u) (RawFragment u).

(** What the embedding takes from the Go standard library without writing it
    out: [strings.Map(unicode.ToLower, s)], the slow path of
    [strings.ToLower] taken when [s] has a byte outside ASCII;
    [sha256.Sum256], the digest of everything written to the hash; and
    [url.Parse], whose error is all that [sanitizeURL] looks at. *)
Class GoStd := {
  unicode_ToLower_Map : string -> string;
  sha256_Sum256 : list Byte.byte -> list Byte.byte;
  url_Parse : string -> URL + error
}.

(** [strings.ToLower]: ASCII-only strings are lowered byte by byte. *)
Definition strings_ToLower `{GoStd} (s : string) : string :=
  if str_forall below_RuneSelf s then str_map lower_byte s
  else unicode_ToLower_Map s.

(** ** Package [encoding/hex] *)

Definition hextable : string := "0123456789abcdef".
Definition upperhex : string := "0123456789ABCDEF".

Definition hex_digit (table : string) (n : N) : ascii :=
  match String.get (N.to_nat n) table with
  | Some c => c
  | None => "0"%char
  end.

(** [hex.EncodeToString]: two lower-case digits per byte, high nibble first. *)
Fixpoint hex_EncodeToString (src : list Byte.byte) : string :=
  match src with
  | [] => EmptyString
  | b :: rest =>
      let v := Byte.to_N b in
      String (hex_digit hextable (N.shiftr v 4))
        (String (hex_digit hextable (N.land v 15)) (hex_EncodeToString rest))
  end.

(** ** Package [net/url] *)

Inductive encoding :=
| encodePath | encodePathSegment | encodeHost | encodeZone
| encodeUserPassword | encodeQueryComponent | encodeFragment.

Definition encoding_eqb (a b : encoding) : bool :=
  match a, b with
  | encodePath, encodePath | encodePathSegment, encodePathSegment
  | encodeHost, encodeHost | encodeZone, encodeZone
  | encodeUserPassword, encodeUserPassword
  | encodeQueryComponent, encodeQueryComponent
  | encodeFragment, encodeFragment => true
  | _, _ => false
  end.

(** The double-quote byte, 0x22 *)
Definition dquote : ascii := ascii_of_N 34.

Fixpoint str_mem (c : ascii) (s : string) : bool :=
  match s with
  | EmptyString => false
  | String d s' => Ascii.eqb c d || str_mem c s'
  end.

(** [shouldEscape]: does byte [c] need a percent-escape in the given part of
    a URL? *)
Definition shouldEscape (c : ascii) (mode : encoding) : bool :=
  if is_alnum c then false
  else if (encoding_eqb mode encodeHost || encoding_eqb mode encodeZone)
          && (str_mem c "!$&'()*+,;=:[]<>" || Ascii.eqb c dquote)
  then false
  else if str_mem c "-_.~" then false
  else if str_mem c "$&+,/:;=?@" then
    match mode with
    | encodePath => Ascii.eqb c "?"
    | encodePathSegment => str_mem c "/;,?"
    | encodeUserPassword => str_mem c "@/?:"
    | encodeQueryComponent => true
    | encodeFragment => false
    | _ => true
    end
  else if encoding_eqb mode encodeFragment && str_mem c "!()*" then false
  else true.

Definition pct_encode (c : ascii) (rest : string) : string :=
  let v := N_of_ascii c in
  String "%" (String (hex_digit upperhex (N.shiftr v 4))
                (String (hex_digit upperhex (N.land v 15)) rest)).

(** [escape] *)
Fixpoint escape (s : string) (mode : encoding) : string :=
  match s with
  | EmptyString => EmptyString
  | String c s' =>
      if Ascii.eqb c " " && encoding_eqb mode encodeQueryComponent
      then String "+" (escape s' mode)
      else if shouldEscape c mode then pct_encode c (escape s' mode)
      else String c (escape s' mode)
  end.

Definition ishex (c : ascii) : bool :=
  is_digit c || byte_in "a" "f" c || byte_in "A" "F" c.

Definition unhex (c : ascii) : N :=
  if is_digit c then N_of_ascii c - N_of_ascii "0"
  else if byte_in "a" "f" c then N_of_ascii c - N_of_ascii "a" + 10
  else if byte_in "A" "F" c then N_of_ascii c - N_of_ascii "A" + 10
  else 0.

(** [unescape] for the modes this package needs (path, fragment, query
    component): [None] is an [EscapeError].  The extra host and zone checks
    of the Go function apply to no mode used here. *)
Fixpoint unescape (s : string) (mode : encoding) : option string :=
  match s with
  | EmptyString => Some EmptyString
  | String "%" (String h (String l rest)) =>
      if ishex h && ishex l
      then String (ascii_of_N (N.lor (N.shiftl (unhex h) 4) (unhex l)))
             <$> unescape rest mode
      else None
  | String "%" _ => None
  | String "+" rest =>
      String (if encoding_eqb mode encodeQueryComponent then " " else "+")%char
        <$> unescape rest mode
  | String c rest => String c <$> unescape rest mode
  end.

Definition url_QueryEscape (s : string) : string := escape s encodeQueryComponent.
Definition url_QueryUnescape (s : string) : option string :=
  unescape s encodeQueryComponent.

(** [validEncoded] *)
Fixpoint validEncoded (s : string) (mode : encoding) : bool :=
  match s with
  | EmptyString => true
  | String c s' =>
      (str_mem c "!$&'()*+,;=:@[]%" || negb (shouldEscape c mode))
      && validEncoded s' mode
  end.

Definition str_nonempty (s : string) : bool :=
  match s with EmptyString => false | String _ _ => true end.

(** [URL.EscapedPath] *)
Definition URL_EscapedPath (u : URL) : string :=
  let raw_ok :=
    str_nonempty (RawPath u) && validEncoded (RawPath u) encodePath
    && match unescape (RawPath u) encodePath with
       | Some p => String.eqb p (Path u)
       | None => false
       end in
  if raw_ok then RawPath u
  else if String.eqb (Path u) "*" then "*"
  else escape (Path u) encodePath.

(** [URL.EscapedFragment] *)
Definition URL_EscapedFragment (u : URL) : string :=
  let raw_ok :=
    str_nonempty (RawFragment u) && validEncoded (RawFragment u) encodeFragment
    && match unescape (RawFragment u) encodeFragment with
       | Some f => String.eqb f (Fragment u)
       | None => false
       end in
  if raw_ok then RawFragment u else escape (Fragment u) encodeFragment.

(** [Userinfo.String] *)
Definition Userinfo_String (ui : Userinfo) : string :=
  escape (username ui) encodeUserPassword
  +:+ (if passwordSet ui then ":" +:+ escape (password ui) encodeUserPassword
       else EmptyString).

Definition is_some {A} (o : option A) : bool :=
  match o with Some _ => true | None => false end.

(** [URL.String]: the URL reassembled, one buffer write per line. *)
Definition URL_String (u : URL) : string :=
  let buf := if str_nonempty (Scheme u) then Scheme u +:+ ":" else EmptyString in
  let buf :=
    if str_nonempty (Opaque u) then buf +:+ Opaque u
    else
      let buf :=
        if str_nonempty (Scheme u) || str_nonempty (Host u) || is_some (User u)
        then
          if OmitHost u && negb (str_nonempty (Host u)) && negb (is_some (User u))
          then buf
          else
            let buf :=
              if str_nonempty (Host u) || str_nonempty (Path u) || is_some (User u)
              then buf +:+ "//" else buf in
            let buf :=
              match User u with
              | Some ui => buf +:+ Userinfo_String ui +:+ "@"
              | None => buf
              end in
            if str_nonempty (Host u) then buf +:+ escape (Host u) encodeHost
            else buf
        else buf in
      let path := URL_EscapedPath u in
      let buf :=
        if str_nonempty path && negb (strings_HasPrefix path "/")
           && str_nonempty (Host u)
        then buf +:+ "/" else buf in
      let buf :=
        if negb (str_nonempty buf)
           && strings_Contains (fst (fst (strings_Cut path "/"))) ":"
        then buf +:+ "./" else buf in
      buf +:+ path in
  let buf :=
    if ForceQuery u || str_nonempty (RawQuery u)
    then buf +:+ "?" +:+ RawQuery u else buf in
  if str_nonempty (Fragment u) then buf +:+ "#" +:+ URL_EscapedFragment u
  else buf.

(** [url.Values], a [map[string][]string] *)
Abbreviation Values := (gmap string (list string)).

(** One turn of the loop of [parseQuery] on the segment [key] cut off at
    the next ampersand: a segment holding a semicolon, an empty segment and
    a segment with a malformed escape are skipped. *)
Definition parseQuery_segment (m : Values) (key : string) : Values :=
  if strings_Contains key ";" then m
  else if negb (str_nonempty key) then m
  else
    let '(key, value, _) := strings_Cut key "=" in
    match url_QueryUnescape key with
    | None => m
    | Some key =>
        match url_QueryUnescape value with
        | None => m
        | Some value => <[key := (m !!! key) ++ [value]]> m
        end
    end.

(** [parseQuery]: while [query] is not empty, cut it at the next ampersand
    and handle the segment before it; the loop is bounded by [fuel]. *)
Fixpoint parseQuery (fuel : nat) (m : Values) (query : string) : Values :=
  match fuel with
  | O => m
  | S fuel' =>
      if negb (str_nonempty query) then m
      else
        let '(key, query', _) := strings_Cut query "&" in
        parseQuery fuel' (parseQuery_segment m key) query'
  end.

(** [url.ParseQuery], its error dropped as [URL.Query] does. *)
Definition url_ParseQuery (query : string) : Values :=
  parseQuery (S (String.length query)) ∅ query.

(** [URL.Query] *)
Definition URL_Query (u : URL) : Values := url_ParseQuery (RawQuery u).

(** [Values.Del] *)
Definition Values_Del (v : Values) (key : string) : Values := delete key v.

(** The keys of a map, in the order [slices.Sort] leaves them. *)
Definition sorted_keys (v : Values) : list string :=
  merge_sort String.le (map fst (map_to_list v)).

(** [Values.Encode] *)
Definition Values_Encode (v : Values) : string :=
  foldl (fun buf k =>
           let keyEscaped := url_QueryEscape k in
           foldl (fun buf val =>
                    let buf := if str_nonempty buf then buf +:+ "&" else buf in
                    buf +:+ keyEscaped +:+ "=" +:+ url_QueryEscape val)
                 buf (v !!! k))
        EmptyString (sorted_keys v).

(** ** Packages [io], [bytes], [hash] and [net/http] *)

(** An [io.ReadCloser]: the bytes it still has to deliver, and the error (if
    any) that reading meets instead of end-of-file once they are delivered. *)
Record ReadCloser := mkReadCloser {
  pending : list Byte.byte;
  fault : option error;
  closed : bool
}.

(** [io.NopCloser(bytes.NewReader(b))] *)
Definition bytes_NewReader (b : list Byte.byte) : ReadCloser :=
  mkReadCloser b None false.

(** [io.ReadAll]: the data read, the error, and the reader left drained. *)
Definition io_ReadAll (r : ReadCloser)
  : list Byte.byte * option error * ReadCloser :=
  (pending r, fault r, mkReadCloser [] (fault r) (closed r)).

Definition ReadCloser_Close (r : ReadCloser) : ReadCloser :=
  mkReadCloser (pending r) (fault r) true.

(** [bytes.Clone] *)
Definition bytes_Clone (b : list Byte.byte) : list Byte.byte := b.

(** A running [hash.Hash] is the bytes written to it so far. *)
Definition hash_State := list Byte.byte.
Definition sha256_New : hash_State := [].
Definition hash_Write (h : hash_State) (p : list Byte.byte) : hash_State := h ++ p.
Definition hash_Sum `{GoStd} (h : hash_State) : list Byte.byte := sha256_Sum256 h.

(** [[]byte(s)] *)
Definition bytes_of (s : string) : list Byte.byte := list_byte_of_string s.

(** [http.Header] *)
Abbreviation Header := (gmap string (list string)).

Definition Header_Clone (h : Header) : Header := h.

(** [textproto.CanonicalMIMEHeaderKey] *)
Definition validHeaderFieldByte (c : ascii) : bool :=
  is_alnum c || str_mem c "!#$%&'*+-.^_`|~".

Fixpoint canonical_from (upper : bool) (s : string) : string :=
  match s with
  | EmptyString => EmptyString
  | String c s' =>
      String (if upper then upper_byte c else lower_byte c)
        (canonical_from (Ascii.eqb c "-") s')
  end.

Definition CanonicalMIMEHeaderKey (s : string) : string :=
  if str_forall validHeaderFieldByte s then canonical_from true s else s.

(** [Header.Set] *)
Definition Header_Set (h : Header) (key value : string) : Header :=
  <[CanonicalMIMEHeaderKey key := [value]]> h.

(** [http.Request], the fields this package reads or writes. *)
Record Request := mkRequest {
  Method : string;
  ReqURL : URL;
  ReqHeader : Header;
  ReqBody : option ReadCloser
}.

Definition set_ReqBody (req : Request) (b : option ReadCloser) : Request :=
  mkRequest (Method req) (ReqURL req) (ReqHeader req) b.

Definition set_ReqHeader (req : Request) (h : Header) : Request :=
  mkRequest (Method req) (ReqURL req) h (ReqBody req).

(** [http.Response] *)
Record Response := mkResponse {
  StatusCode : Z;
  RespHeader : Header;
  RespBody : ReadCloser;
  RespRequest : Request
}.

Definition set_RespBody (resp : Response) (b : ReadCloser) : Response :=
  mkResponse (StatusCode resp) (RespHeader resp) b (RespRequest resp).

(** ** Package [youscore]: the cache *)

(** [CachedResponse] holds the data needed to reconstruct an HTTP response
    from cache. *)
Record CachedResponse := mkCachedResponse {
  CachedStatusCode : Z;
  CachedHeader : Header;
  CachedBody : list Byte.byte
}.

(** The interface [Cache], over the state [C] of its implementation. *)
Class Cache (C : Type) := {
  Cache_Get : C -> string -> string -> C * (CachedResponse * bool);
  Cache_Set : C -> string -> string -> CachedResponse -> C
}.

(** The interface [HttpRequestDoer], over the state [D] of its
    implementation: a response (or nil) and an error (or nil).  The request
    is handed over as a value: a transport that reads the body reads its own
    copy, and none is taken to rewrite the request it is handed. *)
Class HttpRequestDoer (D : Type) := {
  Do : D -> Request -> D * (option Response * option error)
}.

(** [cacheKey] builds a deterministic hash from method, URL, and body.  It
    returns [(key, bodyBytes, err)] and the request, whose body it replaces. *)
Definition cacheKey `{GoStd} (req : Request)
  : string * list Byte.byte * option error * Request :=
  let h := sha256_New in
  let h := hash_Write h (bytes_of (Method req)) in
  let h := hash_Write h (bytes_of (URL_String (ReqURL req))) in
  match ReqBody req with
  | None => (hex_EncodeToString (hash_Sum h), [], None, req)
  | Some body =>
      let '(bodyBytes, err, body) := io_ReadAll body in
      match err with
      | Some e => (EmptyString, [], Some e, set_ReqBody req (Some body))
      | None =>
          let req := set_ReqBody req (Some (bytes_NewReader bodyBytes)) in
          let h := hash_Write h bodyBytes in
          (hex_EncodeToString (hash_Sum h), bodyBytes, None, req)
      end
  end.

(** [sensitiveQueryParams] lists query parameter names that may contain
    secrets and must be stripped from URLs before passing to the [Cache]
    interface. *)
Definition sensitiveQueryParams : list string :=
  ["apikey"; "api_key"; "api-key"; "token"; "access_token"; "authorization"].

Definition isSensitiveParam `{GoStd} (name : string) : bool :=
  let lower := strings_ToLower name in
  existsb (fun s => String.eqb lower s) sensitiveQueryParams.

(** The loop of [sanitizeURL] over the keys of [q]. *)
Definition del_sensitive `{GoStd} (q : Values) : Values :=
  foldr (fun param q => if isSensitiveParam param then Values_Del q param else q)
        q (map fst (map_to_list q)).

(** [sanitizeURL] removes sensitive query parameters (e.g. API keys) from a
    URL so that secrets are not leaked to [Cache] implementations. *)
Definition sanitizeURL `{GoStd} (rawURL : string) : string :=
  match url_Parse rawURL with
  | inr _ => rawURL
  | inl u =>
      let q := URL_Query u in
      let q := del_sensitive q in
      let u := set_RawQuery u (Values_Encode q) in
      URL_String u
  end.

(** ** The caching transport decorator *)

(** A call made through one of the two interfaces, with its arguments. *)
Inductive Call :=
| CallGet (url key : string)
| CallDo (req : Request)
| CallSet (url key : string) (resp : CachedResponse).

(** What [cachingDoer.Do] hands back: its two results, or the panic of a nil
    dereference. *)
Inductive Outcome :=
| Returns (resp : option Response) (err : option error)
| Panics.

Section Decorator.
Context `{GoStd} {D C : Type} `{HttpRequestDoer D} `{Cache C}.

Record cachingDoer := mkCachingDoer {
  inner : D;
  cache : C
}.

(** Code that runs against the two collaborators: it yields a value, their
    next states and the calls it made, oldest first. *)
Definition Eff (A : Type) : Type := cachingDoer -> A * cachingDoer * list Call.

Definition ret {A} (a : A) : Eff A := fun d => (a, d, []).

Definition bind {A B} (m : Eff A) (f : A -> Eff B) : Eff B := fun d =>
  let '(a, d1, calls1) := m d in
  let '(b, d2, calls2) := f a d1 in
  (b, d2, calls1 ++ calls2).

Notation "x <- m ;; k" := (bind m (fun x => k))
  (at level 100, m at next level, right associativity).

(** [d.cache.Get(url, key)] *)
Definition call_Get (url key : string) : Eff (CachedResponse * bool) :=
  fun d =>
    let '(c, r) := Cache_Get (cache d) url key in
    (r, mkCachingDoer (inner d) c, [CallGet url key]).

(** [d.cache.Set(url, key, resp)] *)
Definition call_Set (url key : string) (resp : CachedResponse) : Eff unit :=
  fun d =>
    (tt, mkCachingDoer (inner d) (Cache_Set (cache d) url key resp),
     [CallSet url key resp]).

(** [d.inner.Do(req)] *)
Definition call_Do (req : Request) : Eff (option Response * option error) :=
  fun d =>
    let '(i, r) := Do (inner d) req in
    (r, mkCachingDoer i (cache d), [CallDo req]).

(** [(d *cachingDoer) Do(req)] *)
Definition cachingDoer_Do (req : Request) : Eff Outcome :=
  let '(key, _, err, req) := cacheKey req in
  match err return Eff Outcome with
  | Some e => ret (Returns None (Some e))
  | None =>
      let rawURL := sanitizeURL (URL_String (ReqURL req)) in
      got <- call_Get rawURL key ;;
      let '(cached, ok) := got in
      if ok return Eff Outcome then
        ret (Returns
                (Some (mkResponse (CachedStatusCode cached) (CachedHeader cached)
                         (bytes_NewReader (CachedBody cached)) req))
                None)
      else
        sent <- call_Do req ;;
        let '(resp, err) := sent in
        match err, resp return Eff Outcome with
        | Some e, _ => ret (Returns resp (Some e))
        | None, None => ret Panics
        | None, Some resp =>
            let '(body, err, rd) := io_ReadAll (RespBody resp) in
            let resp := set_RespBody resp (ReadCloser_Close rd) in
            match err return Eff Outcome with
            | Some e => ret (Returns (Some resp) (Some e))
            | None =>
                let skipCache :=
                  strings_Contains (URL_String (ReqURL req)) "/rateLimits" in
                _ <- (if negb skipCache return Eff unit then
                       call_Set (sanitizeURL (URL_String (ReqURL req))) key
                         (mkCachedResponse (StatusCode resp)
                            (Header_Clone (RespHeader resp))
                            (bytes_Clone body))
                     else ret tt) ;;
                let resp := set_RespBody resp (bytes_NewReader body) in
                ret (Returns (Some resp) None)
            end
        end
  end.

(** Several requests sent through the decorator, one after the other. *)
Fixpoint Do_all (reqs : list Request) : Eff (list Outcome) :=
  match reqs with
  | [] => ret ([] : list Outcome)
  | req :: reqs' =>
      o <- cachingDoer_Do req ;;
      os <- Do_all reqs' ;;
      ret (o :: os)
  end.

End Decorator.

Arguments cachingDoer : clear implicits.
Arguments Eff : clear implicits.

(** ** Package [youscore]: request editors *)

(** [APIKeys] holds the four API keys for different endpoint categories. *)
Record APIKeys := mkAPIKeys {
  DataAnalytics : string;
  PDFLegalEntities : string;
  PDFIndividuals : string;
  Affiliates : string
}.

(** [apiKeyForPath] returns the appropriate API key for the given request
    path. *)
Definition apiKeyForPath (keys : APIKeys) (path : string) : string :=
  let path := strings_TrimPrefix path "/" in
  if strings_HasPrefix path "v1/contractors/pdf-file/" then PDFLegalEntities keys
  else if strings_HasPrefix path "v1/individuals/pdf-reports" then PDFIndividuals keys
  else if strings_HasPrefix path "v1/affiliates" then Affiliates keys
  else DataAnalytics keys.

Definition APIType := string.
Definition APITypeCustom : APIType := "custom".
Definition APITypeAnalysis : APIType := "analysis".
Definition APITypeData : APIType := "data".

Definition customPrefixes : list string :=
  [ "v1/contractors/pdf-file/"; "v1/contractorsPdf/";
    "v1/individuals/pdf-reports"; "v1/individualsPdfReports";
    "v1/affiliates"; "v1/setam/" ].

Definition analysisPrefixes : list string :=
  [ "v1/history/"; "v1/usrAdministrativeServicesResults/"; "v1/usrDocuments/";
    "v1/expressAnalysis/"; "v1/marketScoring/"; "v1/financialScoring/";
    "v1/investigationsLegal"; "v1/investigationsNatural"; "v1/fig";
    "v1/individualsFigCompanies"; "v1/courtCaseGroup/";
    "v1/encumbrances/details/"; "v1/encumbrances/resultdetails/";
    "v1/realEstate/details/"; "v1/realEstate/resultdetails/";
    "v1/tenders/risks/"; "v1/sanctions" ].

(** [aPITypeForPath] returns the appropriate API type for the given request
    path: the first [case] of the [switch] with a matching prefix decides. *)
Definition aPITypeForPath (path : string) : APIType :=
  let path := strings_TrimPrefix path "/" in
  if existsb (strings_HasPrefix path) customPrefixes then APITypeCustom
  else if existsb (strings_HasPrefix path) analysisPrefixes then APITypeAnalysis
  else APITypeData.

Section Editors.
(** [Ctx] is [context.Context]; [U] is whatever state the closures handed
    to the client capture (the caller's usage counters, for instance). *)
Context {Ctx U : Type}.

(** [RequestEditorFn]: the error, the edited request and the next state. *)
Definition RequestEditorFn : Type :=
  Ctx -> Request -> U -> option error * Request * U.

Record Client := mkClient {
  RequestEditors : list RequestEditorFn
}.

Definition ClientOption : Type := Client -> option error * Client.

(** Modelled from the spec: [WithRequestEditorFn] is generated client code
    that is not part of the sources; the editor is appended to the client's
    ordered list, as [WithUsageTracking] does by hand. *)
Definition WithRequestEditorFn (fn : RequestEditorFn) : ClientOption :=
  fun c => (None, mkClient (RequestEditors c ++ [fn])).

(** The editor registered by [WithBearerAuth]. *)
Definition bearerAuthEditor (apiKey : string) : RequestEditorFn :=
  fun _ req u =>
    (None,
     set_ReqHeader req (Header_Set (ReqHeader req) "Authorization" ("bearer " +:+ apiKey)),
     u).

Definition WithBearerAuth (apiKey : string) : ClientOption :=
  WithRequestEditorFn (bearerAuthEditor apiKey).

(** The editor registered by [WithAPIKeys]. *)
Definition apiKeysEditor (keys : APIKeys) : RequestEditorFn :=
  fun _ req u =>
    let key := apiKeyForPath keys (Path (ReqURL req)) in
    (None,
     set_ReqHeader req (Header_Set (ReqHeader req) "Authorization" ("bearer " +:+ key)),
     u).

(** [WithAPIKeys] selects the correct API key based on the request path. *)
Definition WithAPIKeys (keys : APIKeys) : ClientOption :=
  WithRequestEditorFn (apiKeysEditor keys).

(** The editor registered by [WithUsageTracking]; the callback [usageFn]
    returns nothing and acts on the state it captured. *)
Definition usageTrackingEditor (usageFn : Ctx -> APIType -> string -> U -> U)
  : RequestEditorFn :=
  fun ctx req u =>
    let path := Path (ReqURL req) in
    let path := fst (fst (strings_Cut path "?")) in
    let apiType := aPITypeForPath path in
    let u := usageFn ctx apiType path u in
    (None, req, u).

Definition WithUsageTracking (usageFn : Ctx -> APIType -> string -> U -> U)
  : ClientOption :=
  fun c => (None, mkClient (RequestEditors c ++ [usageTrackingEditor usageFn])).

End Editors.

Arguments Client : clear implicits.
Arguments RequestEditorFn : clear implicits.
Arguments ClientOption : clear implicits.

(** ** Collaborators of the test suite *)

(** [mapCache] is a simple in-memory cache for testing. *)
Record mapCache := mkMapCache {
  store : gmap string CachedResponse
}.

Definition newMapCache : mapCache := mkMapCache ∅.

(** The zero value of [CachedResponse], read from a map without the key. *)
Definition zeroCachedResponse : CachedResponse := mkCachedResponse 0 ∅ [].

#[global] Instance mapCache_Cache : Cache mapCache := {
  Cache_Get c _ key :=
    match store c !! key with
    | Some v => (c, (v, true))
    | None => (c, (zeroCachedResponse, false))
    end;
  Cache_Set c _ key resp := mkMapCache (<[key := resp]> (store c))
}.

(** [fakeDoer] records how many times [Do] was called. *)
Record fakeDoer := mkFakeDoer {
  calls : nat
}.

(** The body the fake transport answers with: [{"ok":true}]. *)
Definition fakeBody : string :=
  "{" +:+ String dquote ("ok" +:+ String dquote ":true}").

#[global] Instance fakeDoer_Doer : HttpRequestDoer fakeDoer := {
  Do f req :=
    (mkFakeDoer (S (calls f)),
     (Some (mkResponse 200 {[ "X-Test" := ["value"] ]}
              (bytes_NewReader (bytes_of fakeBody)) req),
      None))
}.

(** ** A runnable instance of [GoStd] *)

Definition is_ctl (c : ascii) : bool :=
  (N_of_ascii c <? 32)%N || (N_of_ascii c =? 127)%N.

(** A parser for plain URLs of the shape [scheme://host/path?query#fragment]:
    where the host is a name (and port) of letters, digits, dots and hyphens,
    there is no user information, and path and fragment need no escaping, it
    returns what [url.Parse] returns. *)
Definition plainParse (rawURL : string) : URL + error :=
  if negb (str_forall (fun c => negb (is_ctl c)) rawURL)
  then inr "net/url: invalid control character in URL"
  else
    let '(u, frag, _) := strings_Cut rawURL "#" in
    let '(rest, query, hasq) := strings_Cut u "?" in
    let force := hasq && negb (str_nonempty query) in
    let '(scheme, after, found) := strings_Cut rest "://" in
    if found then
      match strings_Index after "/" with
      | Some i =>
          inl (mkURL (str_map lower_byte scheme) EmptyString None
                     (str_take i after) (str_drop i after)
                     EmptyString false force query frag EmptyString)
      | None =>
          inl (mkURL (str_map lower_byte scheme) EmptyString None after EmptyString
                     EmptyString false force query frag EmptyString)
      end
    else
      inl (mkURL EmptyString EmptyString None EmptyString rest
                 EmptyString false force query frag EmptyString).

(** The instance used to run the embedding on examples.  It stands in for the
    library, it is not the library: strings with bytes outside ASCII are left
    as they are, the digest of a message is the message, and URLs are parsed
    by [plainParse]. *)
Definition plainStd : GoStd := {|
  unicode_ToLower_Map := fun s => s;
  sha256_Sum256 := fun msg => msg;
  url_Parse := plainParse
|}.

(** ** Vocabulary of the properties and the requests they are run on *)

Definition testKeys : APIKeys :=
  mkAPIKeys "da-key" "pdf-legal-key" "pdf-ind-key" "aff-key".

(** A GET request for [https://api.youscore.com.ua] followed by [path]. *)
Definition getRequest (path : string) : Request :=
  mkRequest "GET"
    (mkURL "https" EmptyString None "api.youscore.com.ua" path EmptyString
           false false EmptyString EmptyString EmptyString)
    ∅ None.

(** A callback that appends what it is called with to a list. *)
Definition recordUsage : unit -> APIType -> string -> list (APIType * string)
                         -> list (APIType * string) :=
  fun _ apiType path seen => seen ++ [(apiType, path)].

(** The bytes a request's body has yet to deliver (none without a body). *)
Definition body_bytes (req : Request) : list Byte.byte :=
  match ReqBody req with
  | Some body => pending body
  | None => []
  end.

(** The body of the request, if any, can be read to its end. *)
Definition readable (req : Request) : Prop :=
  match ReqBody req with
  | Some body => fault body = None
  | None => True
  end.


(** What is written to the hash, in the order it is written. *)
Definition key_preimage (req : Request) : list Byte.byte :=
  bytes_of (Method req) ++ bytes_of (URL_String (ReqURL req)) ++ body_bytes req.

(** The first result of [cacheKey]. *)
Definition key_of `{GoStd} (req : Request) : string := fst (fst (fst (cacheKey req))).

(** The request as [cacheKey] leaves it when the body could be read: the body
    is a new reader over the bytes that were read. *)
Definition rewound (req : Request) : Request :=
  match ReqBody req with
  | Some body => set_ReqBody req (Some (bytes_NewReader (pending body)))
  | None => req
  end.

Definition postRequest (path : string) (body : list Byte.byte) : Request :=
  mkRequest "POST"
    (mkURL "https" EmptyString None "api.youscore.com.ua" path EmptyString
           false false EmptyString EmptyString EmptyString)
    ∅ (Some (bytes_NewReader body)).











(** How many of the calls went to the wrapped transport. *)
Fixpoint transport_calls (calls : list Call) : nat :=
  match calls with
  | [] => 0
  | CallDo _ :: rest => S (transport_calls rest)
  | _ :: rest => transport_calls rest
  end.

(** A transport that answers every request with the same status code and an
    empty body. *)
Record cannedDoer := mkCannedDoer {
  canned_status : Z
}.

#[global] Instance cannedDoer_Doer : HttpRequestDoer cannedDoer := {
  Do f req :=
    (f, (Some (mkResponse (canned_status f) ∅ (bytes_NewReader []) req), None))
}.

(** A GET request for [https://api.youscore.com.ua] followed by [path] and
    the query string [query]. *)
Definition getRequestWithQuery (path query : string) : Request :=
  mkRequest "GET"
    (mkURL "https" EmptyString None "api.youscore.com.ua" path EmptyString
           false false query EmptyString EmptyString)
    ∅ None.

(** A request whose body fails with [unexpected EOF] after two bytes. *)
Definition brokenRequest : Request :=
  mkRequest "POST"
    (mkURL "https" EmptyString None "api.youscore.com.ua" "/v1/affiliates/query"
           EmptyString false false EmptyString EmptyString EmptyString)
    ∅ (Some (mkReadCloser (bytes_of "{}") (Some "unexpected EOF") false)).

(** A transport that fails every request. *)
Record downDoer := mkDownDoer {
  attempts : nat
}.

#[global] Instance downDoer_Doer : HttpRequestDoer downDoer := {
  Do f req := (mkDownDoer (S (attempts f)), (None, Some "connection refused"))
}.

(** The URL argument of the cache calls made for a request. *)
Definition lookup_url `{GoStd} (req : Request) : string :=
  sanitizeURL (URL_String (ReqURL req)).

(** What is stored for a response whose body has been read to its end. *)
Definition snapshot (resp : Response) : CachedResponse :=
  mkCachedResponse (StatusCode resp) (RespHeader resp) (pending (RespBody resp)).

(** The response rebuilt from what the cache holds. *)
Definition replay (cached : CachedResponse) (req : Request) : Response :=
  mkResponse (CachedStatusCode cached) (CachedHeader cached)
             (bytes_NewReader (CachedBody cached)) req.

(** ** Vocabulary of the further properties *)

(** The three prefixes [apiKeyForPath] gives a key of its own. *)
Definition credentialPrefixes : list string :=
  [ "v1/contractors/pdf-file/"; "v1/individuals/pdf-reports"; "v1/affiliates" ].

(** Every byte of the string is a lower-case hexadecimal digit. *)
Definition lower_hex (s : string) : bool :=
  str_forall (fun c => str_mem c hextable) s.


(** A transport whose responses break off with an error while being read. *)
Record flakyDoer := mkFlakyDoer {
  flaky_sent : nat
}.

#[global] Instance flakyDoer_Doer : HttpRequestDoer flakyDoer := {
  Do f req :=
    (mkFlakyDoer (S (flaky_sent f)),
     (Some (mkResponse 200 ∅ (mkReadCloser (bytes_of "{") (Some "unexpected EOF") false) req),
      None))
}.

(** A transport that breaks the contract: no response and no error. *)
Record silentDoer := mkSilentDoer {
  silent_sent : nat
}.

#[global] Instance silentDoer_Doer : HttpRequestDoer silentDoer := {
  Do f req := (mkSilentDoer (S (silent_sent f)), (None, None))
}.

(** ** Package [youscore]: the rate-limit utility *)

Definition ServerURL : string := "https://api.youscore.com.ua".

(** [http.StatusOK] *)
Definition StatusOK : Z := 200.

(** An instant or a duration, in nanoseconds. *)
Definition Time := Z.

Record RateLimits := mkRateLimits {
  ActualDate : Time;
  RequestsCount : list (string * Z * string);
  RequestsLeft : Z;
  TotalLimits : Z
}.

Record RateLimitsResponse := mkRateLimitsResponse {
  LimitsDataAnalytics : option RateLimits;
  LimitsPDFLegalEntities : option RateLimits;
  LimitsPDFIndividuals : option RateLimits;
  LimitsAffiliates : option RateLimits
}.

(** What the generated [GetV1RateLimitsWithResponse] hands back: the status
    code and the body of the HTTP response. *)
Record GetV1RateLimitsResponse := mkGetV1RateLimitsResponse {
  LimitsStatusCode : Z;
  LimitsBody : list Byte.byte
}.

(** A call [CheckRateLimits] makes to the generated client. *)
Inductive LimitCall :=
| CallNewClient (keys : APIKeys)
| CallGetV1RateLimits.

(** [%d] of an [int] *)
Definition itoa (n : Z) : string :=
  DecimalString.NilZero.string_of_int (Z.to_int n).

Section RateLimitsUtil.
(** The generated client and [json.Unmarshal] are not part of the sources;
    they are taken as they are called: [NewClientWithResponses] with a server
    and options, [GetV1RateLimitsWithResponse] on the client it built, acting
    on the outside world [W], and [json.Unmarshal] into a zero [RateLimits]. *)
Context {Ctx U W CW : Type}.
Variable NewClientWithResponses : string -> list (ClientOption Ctx U) -> CW + error.
Variable GetV1RateLimitsWithResponse :
  CW -> Ctx -> W -> (GetV1RateLimitsResponse + error) * W.
Variable json_Unmarshal : list Byte.byte -> RateLimits + error.

(** The closure [getLimit] of [CheckRateLimits]: its two results, the world
    it leaves and the calls it made. *)
Definition getLimit (ctx : Ctx) (key : string) (w : W)
  : option RateLimits * option error * W * list LimitCall :=
  if negb (str_nonempty key) then (None, None, w, [])
  else
    let keys := mkAPIKeys key EmptyString EmptyString EmptyString in
    match NewClientWithResponses ServerURL [WithAPIKeys keys] with
    | inr err => (None, Some ("new client: " +:+ err), w, [CallNewClient keys])
    | inl cl =>
        let '(res, w) := GetV1RateLimitsWithResponse cl ctx w in
        let calls := [CallNewClient keys; CallGetV1RateLimits] in
        match res with
        | inr err => (None, Some err, w, calls)
        | inl res =>
            if negb (LimitsStatusCode res =? StatusOK)%Z
            then (None, Some ("bad status: " +:+ itoa (LimitsStatusCode res)), w, calls)
            else
              match json_Unmarshal (LimitsBody res) with
              | inr err => (None, Some ("unmarshal: " +:+ err), w, calls)
              | inl limits => (Some limits, None, w, calls)
              end
        end
    end.

(** [CheckRateLimits] for all (non-blank) keys *)
Definition CheckRateLimits (ctx : Ctx) (keys : APIKeys) (w : W)
  : option RateLimitsResponse * option error * W * list LimitCall :=
  let '(dataLimits, err, w, calls1) := getLimit ctx (DataAnalytics keys) w in
  match err with
  | Some err => (None, Some ("get data analytics key limit: " +:+ err), w, calls1)
  | None =>
  let '(pdfEntitiesLimits, err, w, calls2) := getLimit ctx (PDFLegalEntities keys) w in
  match err with
  | Some err =>
      (None, Some ("get pdf legal entities key limit: " +:+ err), w, calls1 ++ calls2)
  | None =>
  let '(pdfIndividualsLimits, err, w, calls3) := getLimit ctx (PDFIndividuals keys) w in
  match err with
  | Some err =>
      (None, Some ("get pdf individuals key limit: " +:+ err), w,
       calls1 ++ calls2 ++ calls3)
  | None =>
  let '(affiliatesLimits, err, w, calls4) := getLimit ctx (Affiliates keys) w in
  match err with
  | Some err =>
      (None, Some ("get affiliates key limit: " +:+ err), w,
       calls1 ++ calls2 ++ calls3 ++ calls4)
  | None =>
      (Some (mkRateLimitsResponse dataLimits pdfEntitiesLimits
               pdfIndividualsLimits affiliatesLimits),
       None, w, calls1 ++ calls2 ++ calls3 ++ calls4)
  end end end end.

End RateLimitsUtil.

(** The keys [CheckRateLimits] goes through, in its order. *)
Definition limit_keys (keys : APIKeys) : list string :=
  [DataAnalytics keys; PDFLegalEntities keys; PDFIndividuals keys; Affiliates keys].

(** The key set of the client built for one key: the key as the default
    credential, nothing else; no client for a blank key. *)
Definition client_for (key : string) : list APIKeys :=
  if str_nonempty key then [mkAPIKeys key EmptyString EmptyString EmptyString] else [].

(** The key sets of the clients built, in order. *)
Definition clients_built (calls : list LimitCall) : list APIKeys :=
  flat_map (fun call => match call with CallNewClient keys => [keys] | _ => [] end) calls.

Fixpoint limit_requests (calls : list LimitCall) : nat :=
  match calls with
  | [] => 0
  | CallGetV1RateLimits :: rest => S (limit_requests rest)
  | _ :: rest => limit_requests rest
  end.

(** A stand-in for the generated client: the client is the [Authorization]
    header its editors put on a rate-limit request, the world is the list of
    headers sent so far, and the credential [expired] is answered with 429. *)
Definition fakeNewClient (server : string) (opts : list (ClientOption unit unit))
  : list string + error :=
  let c := foldl (fun c opt => snd (opt c)) (mkClient []) opts in
  let req := foldl (fun r (e : RequestEditorFn unit unit) => snd (fst (e tt r tt)))
                   (getRequest "/v1/rateLimits") (RequestEditors c) in
  inl (ReqHeader req !!! "Authorization").

Definition fakeGetV1RateLimits (cl : list string) (ctx : unit) (w : list string)
  : (GetV1RateLimitsResponse + error) * list string :=
  (inl (mkGetV1RateLimitsResponse
          (if bool_decide (cl = ["bearer expired"]) then 429 else 200)%Z []),
   w ++ cl).

Definition fakeUnmarshal (body : list Byte.byte) : RateLimits + error :=
  inl (mkRateLimits 0%Z [] 990%Z 1000%Z).

(** ** The example programs: file-backed caches *)

(** [cacheTTL]: cached entries expire after 7 days ([7 * 24 * time.Hour]). *)
Definition cacheTTL : Time := (7 * 24 * 3600000000000)%Z.

(** [cacheEntry] represents a single cached HTTP response with metadata. *)
Record cacheEntry := mkCacheEntry {
  EntryURL : string;
  EntryKey : string;
  Timestamp : Time;
  EntryResponse : CachedResponse
}.

(** A Go [map[string]cacheEntry]; [None] is the nil map. *)
Abbreviation entryMap := (option (gmap string cacheEntry)).

(** [entry, ok := m[key]] *)
Definition entry_lookup (m : entryMap) (key : string) : option cacheEntry :=
  match m with
  | Some m => m !! key
  | None => None
  end.

(** [delete(m, key)], a no-op on the nil map *)
Definition entry_delete (m : entryMap) (key : string) : entryMap :=
  match m with
  | Some m => Some (delete key m)
  | None => None
  end.

(** [load]: the map read from the cache file, or the map the cache has when
    the file cannot be read or does not parse.  [file] is what [os.ReadFile]
    returns and [unmarshal] is [json.Unmarshal] into a nil map. *)
Definition load_entries (file : list Byte.byte + error)
    (unmarshal : list Byte.byte -> entryMap + error) (current : entryMap) : entryMap :=
  match file with
  | inr _ => current
  | inl data =>
      match unmarshal data with
      | inr _ => current
      | inl entries => entries
      end
  end.

(** The first example program. *)
Module JSONCache.

(** [jsonCache] with what its methods read and write besides the map: the
    clock, the lines printed, and the maps handed to [save], oldest first. *)
Record jsonCache := mkJSONCache {
  entries : entryMap;
  clock : Time;
  printed : list string;
  saved : list entryMap
}.

Definition set_entries (c : jsonCache) (m : entryMap) : jsonCache :=
  mkJSONCache m (clock c) (printed c) (saved c).

(** [fmt.Println(a, b)] *)
Definition Println (c : jsonCache) (a b : string) : jsonCache :=
  mkJSONCache (entries c) (clock c) (printed c ++ [a +:+ " " +:+ b]) (saved c).

(** [save] writes the entire cache map to the JSON file. *)
Definition save (c : jsonCache) : jsonCache :=
  mkJSONCache (entries c) (clock c) (printed c) (saved c ++ [entries c]).

(** [newJSONCache] creates a new [jsonCache], loading existing entries from
    the cache file. *)
Definition newJSONCache (file : list Byte.byte + error)
    (unmarshal : list Byte.byte -> entryMap + error) (now : Time) : jsonCache :=
  mkJSONCache (load_entries file unmarshal (Some ∅)) now [] [].

(** [Get] retrieves a cached response if it exists and is not expired. *)
Definition Get (c : jsonCache) (url key : string)
  : jsonCache * (CachedResponse * bool) :=
  match entry_lookup (entries c) key with
  | None => (Println c "cache miss:" key, (zeroCachedResponse, false))
  | Some entry =>
      if (cacheTTL <? clock c - Timestamp entry)%Z then
        let c := Println c "cache miss:" key in
        let c := set_entries c (entry_delete (entries c) key) in
        let c := save c in
        (c, (zeroCachedResponse, false))
      else (Println c "cache hit:" key, (EntryResponse entry, true))
  end.

(** [Set] stores a response in the cache and immediately persists to disk;
    [None] is the panic of an assignment to an entry in a nil map. *)
Definition Set_ (c : jsonCache) (url key : string) (resp : CachedResponse)
  : option jsonCache :=
  if negb (CachedStatusCode resp =? 200)%Z then Some c
  else
    match entries c with
    | None => None
    | Some m =>
        let entry := mkCacheEntry url key (clock c) resp in
        Some (save (set_entries c (Some (<[key := entry]> m))))
    end.

(** Time passing between two calls. *)
Definition elapse (d : Time) (c : jsonCache) : jsonCache :=
  mkJSONCache (entries c) (clock c + d)%Z (printed c) (saved c).

(** [jsonCache] as a [Cache].  The interface has no room for a panic: a [Set]
    that panics is shown as leaving the cache as it is, and what is stated of
    this instance is stated of caches whose map is not nil. *)
#[global] Instance jsonCache_Cache : Cache jsonCache := {
  Cache_Get := Get;
  Cache_Set c url key resp :=
    match Set_ c url key resp with
    | Some c' => c'
    | None => c
    end
}.

End JSONCache.

(** The second example program. *)
Module DumbFileCache.

(** [dumbFileCache], with the clock, the lines logged, and the maps handed to
    [save]. *)
Record dumbFileCache := mkDumbFileCache {
  entries : entryMap;
  clock : Time;
  logged : list string;
  saved : list entryMap
}.

Definition set_entries (c : dumbFileCache) (m : entryMap) : dumbFileCache :=
  mkDumbFileCache m (clock c) (logged c) (saved c).

(** [log.Println(a, b)] *)
Definition Println (c : dumbFileCache) (a b : string) : dumbFileCache :=
  mkDumbFileCache (entries c) (clock c) (logged c ++ [a +:+ " " +:+ b]) (saved c).

Definition save (c : dumbFileCache) : dumbFileCache :=
  mkDumbFileCache (entries c) (clock c) (logged c) (saved c ++ [entries c]).

Definition newDumbFileCache (file : list Byte.byte + error)
    (unmarshal : list Byte.byte -> entryMap + error) (now : Time) : dumbFileCache :=
  mkDumbFileCache (load_entries file unmarshal (Some ∅)) now [] [].

Definition Get (c : dumbFileCache) (url key : string)
  : dumbFileCache * (CachedResponse * bool) :=
  match entry_lookup (entries c) key with
  | None => (Println c "cache miss:" key, (zeroCachedResponse, false))
  | Some entry =>
      if (cacheTTL <? clock c - Timestamp entry)%Z then
        let c := Println c "cache miss:" key in
        let c := set_entries c (entry_delete (entries c) key) in
        let c := save c in
        (c, (zeroCachedResponse, false))
      else (Println c "cache hit:" key, (EntryResponse entry, true))
  end.

(** [Set] skips 202 responses. *)
Definition Set_ (c : dumbFileCache) (url key : string) (resp : CachedResponse)
  : option dumbFileCache :=
  if (CachedStatusCode resp =? 202)%Z then Some c
  else
    match entries c with
    | None => None
    | Some m =>
        let entry := mkCacheEntry url key (clock c) resp in
        Some (save (set_entries c (Some (<[key := entry]> m))))
    end.

(** Time passing between two calls. *)
Definition elapse (d : Time) (c : dumbFileCache) : dumbFileCache :=
  mkDumbFileCache (entries c) (clock c + d)%Z (logged c) (saved c).

#[global] Instance dumbFileCache_Cache : Cache dumbFileCache := {
  Cache_Get := Get;
  Cache_Set c url key resp :=
    match Set_ c url key resp with
    | Some c' => c'
    | None => c
    end
}.

End DumbFileCache.

(** The map last handed to [save], or [initial] when nothing was saved. *)
Definition last_saved (initial : entryMap) (saves : list entryMap) : entryMap :=
  List.last saves initial.

(** A cache holding an entry stored at time 0. *)
Definition agedCache (key : string) (resp : CachedResponse) (now : Time)
  : JSONCache.jsonCache :=
  JSONCache.mkJSONCache
    (Some {[ key := mkCacheEntry "https://api.youscore.com.ua/v1/usr/1" key 0%Z resp ]})
    now [] [].

(** What a program does with a cache from one moment to the next: a lookup,
    a store, or letting time pass. *)
Inductive cacheOp :=
| OpGet (url key : string)
| OpSet (url key : string) (resp : CachedResponse)
| OpElapse (d : Time).

(** A sequence of operations on a [jsonCache]; [None] when a store panics. *)
Definition jsonCache_step (c : JSONCache.jsonCache) (op : cacheOp)
  : option JSONCache.jsonCache :=
  match op with
  | OpGet url key => Some (fst (JSONCache.Get c url key))
  | OpSet url key resp => JSONCache.Set_ c url key resp
  | OpElapse d => Some (JSONCache.elapse d c)
  end.

Fixpoint jsonCache_run (ops : list cacheOp) (c : JSONCache.jsonCache)
  : option JSONCache.jsonCache :=
  match ops with
  | [] => Some c
  | op :: ops' =>
      match jsonCache_step c op with
      | Some c' => jsonCache_run ops' c'
      | None => None
      end
  end.

(** The same for a [dumbFileCache]. *)
Definition dumbFileCache_step (c : DumbFileCache.dumbFileCache) (op : cacheOp)
  : option DumbFileCache.dumbFileCache :=
  match op with
  | OpGet url key => Some (fst (DumbFileCache.Get c url key))
  | OpSet url key resp => DumbFileCache.Set_ c url key resp
  | OpElapse d => Some (DumbFileCache.elapse d c)
  end.

Fixpoint dumbFileCache_run (ops : list cacheOp) (c : DumbFileCache.dumbFileCache)
  : option DumbFileCache.dumbFileCache :=
  match ops with
  | [] => Some c
  | op :: ops' =>
      match dumbFileCache_step c op with
      | Some c' => dumbFileCache_run ops' c'
      | None => None
      end
  end.

(** A cache file holding what [json.Unmarshal] turns into a nil map. *)
Definition nullFile : list Byte.byte + error := inl (bytes_of "null").

Definition unmarshal_null (data : list Byte.byte) : entryMap + error :=
  if decide (map Byte.to_N data = map Byte.to_N (bytes_of "null")) then inl None else inr "invalid character".

(** ** The usage tracker of the example program *)

(** A Go [int] after an addition: 64 bits, two's complement. *)
Definition int_wrap (z : Z) : Z := ((z + 2 ^ 63) mod 2 ^ 64 - 2 ^ 63)%Z.

(** [usage]; [PerType] is [None] for the nil map. *)
Record usage := mkUsage {
  PerType : option (gmap string Z);
  Calls : list string
}.

(** [usage.PerType[t]] read: zero without the key, and on the nil map. *)
Definition PerType_at (u : usage) (t : string) : Z :=
  match PerType u with
  | Some m => default 0%Z (m !! t)
  | None => 0%Z
  end.

(** The closure [newSimpleUsageTracker] returns, on the counters it
    captured; [None] is the panic of an assignment to an entry in a nil
    map. *)
Definition simpleUsageTracker {Ctx : Type} (_ : Ctx) (apiType : APIType)
    (path : string) (u : usage) : option usage :=
  match PerType u with
  | None => None
  | Some m =>
      Some (mkUsage (Some (<[apiType := int_wrap (PerType_at u apiType + 1)]> m))
                    (Calls u ++ [apiType +:+ ": " +:+ path]))
  end.

(** [newSimpleUsageTracker]: the counters as it leaves them, and the callback
    for [WithUsageTracking].  The state the callback acts on is the counters,
    or [None] once it has panicked. *)
Definition newSimpleUsageTracker {Ctx : Type} (u : usage)
  : usage * (Ctx -> APIType -> string -> option usage -> option usage) :=
  let u := match PerType u with
           | None => mkUsage (Some ∅) (Calls u)
           | Some _ => u
           end in
  (u, fun ctx apiType path s =>
        match s with
        | Some u => simpleUsageTracker ctx apiType path u
        | None => None
        end).

(** The tracking editor run on each request of a list in turn. *)
Definition track_requests {Ctx U : Type} (usageFn : Ctx -> APIType -> string -> U -> U)
    (ctx : Ctx) (reqs : list Request) (u : U) : U :=
  foldl (fun u req => snd (usageTrackingEditor usageFn ctx req u)) u reqs.

(** The path, and the type, a request is tracked under. *)
Definition usage_path (req : Request) : string :=
  fst (fst (strings_Cut (Path (ReqURL req)) "?")).

Definition usage_type (req : Request) : APIType := aPITypeForPath (usage_path req).

(** How many requests of a list are tracked under a type. *)
Definition requests_of_type (t : APIType) (reqs : list Request) : nat :=
  length (List.filter (fun req => String.eqb (usage_type req) t) reqs).

(** ** The translation tool: [orderedMap] and the schema batches *)

Module OrderedMap.

(** [orderedMap] preserves insertion order of keys; [values] is [None] for
    the nil map of the zero value. *)
Record orderedMap := mkOrderedMap {
  keys : list string;
  values : option (gmap string (list Byte.byte))
}.

Definition newOrderedMap : orderedMap := mkOrderedMap [] (Some ∅).

(** [_, exists := o.values[key]] *)
Definition has_key (o : orderedMap) (key : string) : bool :=
  match values o with
  | Some m => bool_decide (is_Some (m !! key))
  | None => false
  end.

(** [o.values[k]] read: nil without the key, and on the nil map. *)
Definition value_at (o : orderedMap) (k : string) : list Byte.byte :=
  match values o with
  | Some m => default [] (m !! k)
  | None => []
  end.

(** [set]; [None] is the panic of an assignment to an entry in a nil map. *)
Definition set (o : orderedMap) (key : string) (val : list Byte.byte)
  : option orderedMap :=
  let ks := if negb (has_key o key) then keys o ++ [key] else keys o in
  match values o with
  | None => None
  | Some m => Some (mkOrderedMap ks (Some (<[key := val]> m)))
  end.

Section Marshal.
(** [json.Marshal] of a string. *)
Variable json_Marshal : string -> list Byte.byte.

(** The loop of [MarshalJSON] from index [i] on, over the keys left. *)
Fixpoint MarshalJSON_loop (i : nat) (ks : list string) (o : orderedMap)
    (buf : list Byte.byte) : list Byte.byte :=
  match ks with
  | [] => buf
  | k :: ks' =>
      let buf := if (0 <? i)%nat then buf ++ bytes_of "," else buf in
      let keyJSON := json_Marshal k in
      let buf := buf ++ keyJSON in
      let buf := buf ++ bytes_of ":" in
      let buf := buf ++ value_at o k in
      MarshalJSON_loop (S i) ks' o buf
  end.

Definition MarshalJSON (o : orderedMap) : list Byte.byte * option error :=
  let buf := bytes_of "{" in
  let buf := MarshalJSON_loop 0 (keys o) o buf in
  let buf := buf ++ bytes_of "}" in
  (buf, None).

End Marshal.

(** The loops of [main] that rebuild a map in the original key order:
    every key of [order] that the map has is set, in turn. *)
Fixpoint rebuild (order : list string) (m : gmap string (list Byte.byte))
    (o : orderedMap) : option orderedMap :=
  match order with
  | [] => Some o
  | key :: rest =>
      match m !! key with
      | Some val =>
          match set o key val with
          | Some o' => rebuild rest m o'
          | None => None
          end
      | None => rebuild rest m o
      end
  end.

End OrderedMap.

(** Key and value pairs set one after the other. *)
Fixpoint set_all (kvs : list (string * list Byte.byte)) (o : OrderedMap.orderedMap)
  : option OrderedMap.orderedMap :=
  match kvs with
  | [] => Some o
  | (k, v) :: rest =>
      match OrderedMap.set o k v with
      | Some o' => set_all rest o'
      | None => None
      end
  end.

(** The keys of an ordered map are the keys its map has a value for. *)
Definition orderedMap_ok (o : OrderedMap.orderedMap) (m : gmap string (list Byte.byte)) : Prop :=
  OrderedMap.values o = Some m
  /\ forall k, k ∈ OrderedMap.keys o <-> is_Some (m !! k).

(** The elements of a list without repetitions, each where it first occurs. *)
Definition first_occurrences (l : list string) : list string :=
  reverse (remove_dups (reverse l)).

(** Parts written one after the other with a separator in between. *)
Fixpoint joined (sep : list Byte.byte) (parts : list (list Byte.byte)) : list Byte.byte :=
  match parts with
  | [] => []
  | [p] => p
  | p :: rest => p ++ sep ++ joined sep rest
  end.

(** A stand-in for [json.Marshal] of a string without special characters:
    the string between quotes. *)
Definition quoted (s : string) : list Byte.byte :=
  bytes_of (String dquote (s +:+ String dquote EmptyString)).

Definition batchSize : nat := 10.

(** The loop of [main] over the schema items from index [i] on: the number
    and the items of each batch.  Every turn adds [batchSize] to [i], so that
    [fuel] turns are enough when [fuel] is the number of items. *)
Fixpoint schema_batches_loop {A : Type} (fuel i : nat) (schemaItems : list A)
  : list (nat * list A) :=
  match fuel with
  | 0 => []
  | S fuel' =>
      if (i <? length schemaItems)%nat then
        let end_ := Nat.min (i + batchSize)%nat (length schemaItems) in
        let batch := take (end_ - i)%nat (drop i schemaItems) in
        let batchNum := (i / batchSize + 1)%nat in
        (batchNum, batch) :: schema_batches_loop fuel' (i + batchSize)%nat schemaItems
      else []
  end.

Definition schema_batches {A : Type} (schemaItems : list A) : list (nat * list A) :=
  schema_batches_loop (length schemaItems) 0 schemaItems.

Definition totalBatches {A : Type} (schemaItems : list A) : nat :=
  ((length schemaItems + batchSize - 1) / batchSize)%nat.

(** * Properties *)

(** ** Strings *)

Lemma append_cons c s r : String c s +:+ r = String c (s +:+ r).
Proof. reflexivity. Qed.

Lemma append_nil_l r : EmptyString +:+ r = r.
Proof. reflexivity. Qed.

Lemma append_nil_r s : s +:+ EmptyString = s.
Proof. induction s as [|c s IH]; [reflexivity|]. rewrite append_cons, IH. reflexivity. Qed.

Lemma append_assoc (a b c : string) : (a +:+ b) +:+ c = a +:+ (b +:+ c).
Proof.
  induction a as [|x a IH]; [reflexivity|].
  rewrite !append_cons, IH. reflexivity.
Qed.

Lemma HasPrefix_app p r : strings_HasPrefix (p +:+ r) p = true.
Proof.
  induction p as [|c p IH]; [reflexivity|].
  rewrite append_cons. cbn [strings_HasPrefix].
  rewrite Ascii.eqb_refl. exact IH.
Qed.

Lemma HasPrefix_inv s p :
  strings_HasPrefix s p = true -> s = p +:+ str_drop (String.length p) s.
Proof.
  revert s. induction p as [|c p IH]; intros s Hp; [reflexivity|].
  destruct s as [|d s]; [discriminate|].
  cbn [strings_HasPrefix] in Hp.
  destruct (Ascii.eqb d c) eqn:E; [|discriminate].
  apply Ascii.eqb_eq in E. subst d.
  rewrite append_cons. cbn [String.length str_drop].
  f_equal. apply IH, Hp.
Qed.

Lemma HasPrefix_iff s p :
  strings_HasPrefix s p = true <-> exists r, s = p +:+ r.
Proof.
  split.
  - intros Hp. eexists. apply HasPrefix_inv, Hp.
  - intros [r ->]. apply HasPrefix_app.
Qed.

(** Replace a string known to start with a literal by the literal followed by
    a remainder, and let the comparison with other literals compute. *)
Ltac expose_prefix H :=
  let r := fresh "rest" in
  apply HasPrefix_iff in H; destruct H as [r H].

(** ** C8: the per-route API-key selector *)

Lemma Authorization_canonical : CanonicalMIMEHeaderKey "Authorization" = "Authorization".
Proof. reflexivity. Qed.

Lemma apiKeyForPath_rules (keys : APIKeys) (path : string) :
  let p := strings_TrimPrefix path "/" in
  (strings_HasPrefix p "v1/contractors/pdf-file/" = true ->
     apiKeyForPath keys path = PDFLegalEntities keys)
  /\ (strings_HasPrefix p "v1/individuals/pdf-reports" = true ->
     apiKeyForPath keys path = PDFIndividuals keys)
  /\ (strings_HasPrefix p "v1/affiliates" = true ->
     apiKeyForPath keys path = Affiliates keys)
  /\ (strings_HasPrefix p "v1/contractors/pdf-file/" = false ->
      strings_HasPrefix p "v1/individuals/pdf-reports" = false ->
      strings_HasPrefix p "v1/affiliates" = false ->
     apiKeyForPath keys path = DataAnalytics keys).
Proof.
  intros p. unfold apiKeyForPath. fold p.
  repeat split.
  - intros ->. reflexivity.
  - intros Hp. rewrite Hp.
    expose_prefix Hp. rewrite Hp. reflexivity.
  - intros Hp. rewrite Hp.
    expose_prefix Hp. rewrite Hp. reflexivity.
  - intros -> -> ->. reflexivity.
Qed.

(** C8.  The editor registered by [WithAPIKeys] always succeeds and leaves
    the request as it was except for its header, where [Authorization] now
    holds the single value [bearer ] followed by the selected key, whatever
    it held before, and every other header is untouched.  The key is chosen by
    the prefix of the path after one leading slash is stripped:
    [v1/contractors/pdf-file/] selects the legal-entity PDF key,
    [v1/individuals/pdf-reports] the individuals PDF key, [v1/affiliates] the
    affiliates key, any other path the data/analytics key; and
    [/v1/individuals/full-name-info] gets the data/analytics key. *)
Theorem WithAPIKeys_selects_key :
  forall (Ctx U : Type) (keys : APIKeys) (c : Client Ctx U)
         (ctx : Ctx) (req : Request) (u : U),
    let p := strings_TrimPrefix (Path (ReqURL req)) "/" in
    let key := apiKeyForPath keys (Path (ReqURL req)) in
    let req' := set_ReqHeader req
                  (<["Authorization" := ["bearer " +:+ key]]> (ReqHeader req)) in
    WithAPIKeys keys c = (None, mkClient (RequestEditors c ++ [apiKeysEditor keys]))
    /\ apiKeysEditor keys ctx req u = (None, req', u)
    /\ ReqHeader req' !! "Authorization" = Some ["bearer " +:+ key]
    /\ (forall h, h <> "Authorization" -> ReqHeader req' !! h = ReqHeader req !! h)
    /\ (Method req', ReqURL req', ReqBody req') = (Method req, ReqURL req, ReqBody req)
    /\ (strings_HasPrefix p "v1/contractors/pdf-file/" = true ->
          key = PDFLegalEntities keys)
    /\ (strings_HasPrefix p "v1/individuals/pdf-reports" = true ->
          key = PDFIndividuals keys)
    /\ (strings_HasPrefix p "v1/affiliates" = true -> key = Affiliates keys)
    /\ (strings_HasPrefix p "v1/contractors/pdf-file/" = false ->
        strings_HasPrefix p "v1/individuals/pdf-reports" = false ->
        strings_HasPrefix p "v1/affiliates" = false ->
          key = DataAnalytics keys)
    /\ apiKeyForPath keys "/v1/individuals/full-name-info" = DataAnalytics keys.
Proof.
  intros Ctx U keys c ctx req u p key req'.
  destruct (apiKeyForPath_rules keys (Path (ReqURL req))) as (R1 & R2 & R3 & R4).
  split; [reflexivity|].
  split; [reflexivity|].
  split; [apply lookup_insert_eq|].
  split; [intros h Hh; apply lookup_insert_ne; congruence|].
  split; [reflexivity|].
  split; [exact R1|]. split; [exact R2|]. split; [exact R3|]. split; [exact R4|].
  reflexivity.
Qed.

Lemma WithAPIKeys_selects_key_witness :
  ReqHeader (snd (fst (apiKeysEditor (Ctx:=unit) (U:=unit) testKeys tt
                         (set_ReqHeader (getRequest "/v1/contractors/pdf-file/XYZ")
                            {[ "Authorization" := ["bearer stale"] ]}) tt)))
    !! "Authorization" = Some ["bearer pdf-legal-key"]
  /\ apiKeyForPath testKeys "/v1/affiliates/anything" = "aff-key"
  /\ apiKeyForPath testKeys "/v1/individuals/pdf-reports/some-result-id" = "pdf-ind-key"
  /\ apiKeyForPath testKeys "/v1/usr/00032112" = "da-key".
Proof.
  pose proof (WithAPIKeys_selects_key unit unit testKeys (mkClient []) tt
                (set_ReqHeader (getRequest "/v1/contractors/pdf-file/XYZ")
                   {[ "Authorization" := ["bearer stale"] ]}) tt)
    as (_ & Hrun & Hset & _ & _ & Hlegal & _).
  pose proof (WithAPIKeys_selects_key unit unit testKeys (mkClient []) tt
                (getRequest "/v1/affiliates/anything") tt)
    as (_ & _ & _ & _ & _ & _ & _ & Haff & _).
  pose proof (WithAPIKeys_selects_key unit unit testKeys (mkClient []) tt
                (getRequest "/v1/individuals/pdf-reports/some-result-id") tt)
    as (_ & _ & _ & _ & _ & _ & Hind & _).
  pose proof (WithAPIKeys_selects_key unit unit testKeys (mkClient []) tt
                (getRequest "/v1/usr/00032112") tt)
    as (_ & _ & _ & _ & _ & _ & _ & _ & Hdef & _).
  split.
  - rewrite Hrun. cbn [fst snd]. rewrite Hset.
    rewrite (Hlegal eq_refl). reflexivity.
  - split; [exact (Haff eq_refl)|].
    split; [exact (Hind eq_refl)|].
    exact (Hdef eq_refl eq_refl eq_refl).
Defined.

(** ** C9: the usage classifier *)

Lemma analysis_excludes_custom (p pre : string) :
  In pre analysisPrefixes -> strings_HasPrefix p pre = true ->
  existsb (strings_HasPrefix p) customPrefixes = false.
Proof.
  intros Hin Hp. expose_prefix Hp. subst p.
  unfold analysisPrefixes in Hin. cbn [In] in Hin.
  repeat (destruct Hin as [<- | Hin]; [reflexivity|]).
  destruct Hin.
Qed.

Lemma existsb_HasPrefix_intro (p pre : string) (l : list string) :
  In pre l -> strings_HasPrefix p pre = true ->
  existsb (strings_HasPrefix p) l = true.
Proof. intros Hin Hp. apply existsb_exists. exists pre. split; assumption. Qed.

(** C9.  The editor registered by [WithUsageTracking] hands the request back
    unchanged with no error, whatever callback it was given, and the state the
    callback acts on is the result of one call of it, made with the category
    of the path (cut at the first question mark) and that path.  After one
    leading slash is stripped, a path with one of the custom prefixes is
    [custom]; failing that, a path with one of the analysis prefixes is
    [analysis] (no path has a prefix of both kinds, so the order of the two
    cases never decides); any other path is [data].  So [/v1/sanctions] is
    [analysis], [/v1/affiliates/query] is [custom] and [/v1/usr/00032112] is
    [data]. *)
Theorem WithUsageTracking_classifies :
  forall (Ctx U : Type) (usageFn : Ctx -> APIType -> string -> U -> U)
         (c : Client Ctx U) (ctx : Ctx) (req : Request) (u : U),
    let path := fst (fst (strings_Cut (Path (ReqURL req)) "?")) in
    let p := strings_TrimPrefix path "/" in
    WithUsageTracking usageFn c
      = (None, mkClient (RequestEditors c ++ [usageTrackingEditor usageFn]))
    /\ usageTrackingEditor usageFn ctx req u
       = (None, req, usageFn ctx (aPITypeForPath path) path u)
    /\ (forall pre, In pre customPrefixes -> strings_HasPrefix p pre = true ->
          aPITypeForPath path = "custom")
    /\ (forall pre, In pre analysisPrefixes -> strings_HasPrefix p pre = true ->
          aPITypeForPath path = "analysis")
    /\ (existsb (strings_HasPrefix p) customPrefixes = false ->
        existsb (strings_HasPrefix p) analysisPrefixes = false ->
          aPITypeForPath path = "data")
    /\ aPITypeForPath "/v1/sanctions" = "analysis"
    /\ aPITypeForPath "/v1/affiliates/query" = "custom"
    /\ aPITypeForPath "/v1/usr/00032112" = "data".
Proof.
  intros Ctx U usageFn c ctx req u path p.
  split; [reflexivity|].
  split; [reflexivity|].
  split.
  { intros pre Hin Hp. unfold aPITypeForPath. fold p.
    rewrite (existsb_HasPrefix_intro p pre _ Hin Hp). reflexivity. }
  split.
  { intros pre Hin Hp. unfold aPITypeForPath. fold p.
    rewrite (analysis_excludes_custom p pre Hin Hp).
    rewrite (existsb_HasPrefix_intro p pre _ Hin Hp). reflexivity. }
  split.
  { intros Hc Ha. unfold aPITypeForPath. fold p. rewrite Hc, Ha. reflexivity. }
  repeat split.
Qed.

Lemma WithUsageTracking_classifies_witness :
  usageTrackingEditor recordUsage tt (getRequest "/v1/history/00032112") []
    = (None, getRequest "/v1/history/00032112",
       [("analysis", "/v1/history/00032112")]).
Proof.
  pose proof (WithUsageTracking_classifies unit _ recordUsage (mkClient []) tt
                (getRequest "/v1/history/00032112") [])
    as (_ & Hrun & _ & Hana & _).
  rewrite Hrun.
  rewrite (Hana "v1/history/" ltac:(cbn; tauto) eq_refl).
  reflexivity.
Defined.

(** ** C1: the cache key *)

Lemma bytes_of_app (a b : string) : bytes_of (a +:+ b) = bytes_of a ++ bytes_of b.
Proof.
  unfold bytes_of, list_byte_of_string.
  induction a as [|c a IH]; [reflexivity|].
  rewrite append_cons. cbn [list_ascii_of_string map app]. f_equal. exact IH.
Qed.




Lemma hex_EncodeToString_length (x : list Byte.byte) :
  String.length (hex_EncodeToString x) = 2 * List.length x.
Proof. induction x as [|a x IH]; cbn [hex_EncodeToString String.length List.length]; lia. Qed.

(** What [cacheKey] returns when the body can be read. *)
Lemma cacheKey_readable `{GoStd} (req : Request) :
  readable req ->
  cacheKey req =
    (hex_EncodeToString (sha256_Sum256 (key_preimage req)), body_bytes req, None,
     rewound req).
Proof.
  unfold readable, cacheKey, key_preimage, body_bytes, hash_Sum, hash_Write,
    sha256_New, io_ReadAll, rewound.
  destruct (ReqBody req) as [body|]; intros Hr.
  - rewrite Hr. cbn [app]. rewrite <- app_assoc. reflexivity.
  - cbn [app]. rewrite app_nil_r. reflexivity.
Qed.

(** What [cacheKey] returns when reading the body fails. *)
Lemma cacheKey_unreadable `{GoStd} (req : Request) (body : ReadCloser) (e : error) :
  ReqBody req = Some body -> fault body = Some e ->
  cacheKey req =
    (EmptyString, [], Some e,
     set_ReqBody req (Some (mkReadCloser [] (Some e) (closed body)))).
Proof.
  intros Hb Hf. unfold cacheKey, io_ReadAll. rewrite Hb, Hf. reflexivity.
Qed.

Lemma key_of_readable `{GoStd} (req : Request) :
  readable req ->
  key_of req = hex_EncodeToString (sha256_Sum256 (key_preimage req)).
Proof. intros Hr. unfold key_of. rewrite (cacheKey_readable req Hr). reflexivity. Qed.





Lemma rewound_fields (req : Request) :
  Method (rewound req) = Method req
  /\ ReqURL (rewound req) = ReqURL req
  /\ ReqHeader (rewound req) = ReqHeader req.
Proof. unfold rewound. destruct (ReqBody req); repeat split. Qed.

Lemma ReqURL_rewound (req : Request) : ReqURL (rewound req) = ReqURL req.
Proof. apply rewound_fields. Qed.

(** *** The paths through [cachingDoer.Do] *)

Section DecoratorPaths.
Context `{GoStd} {D C : Type} `{HttpRequestDoer D} `{Cache C}.
Implicit Types (d : cachingDoer D C) (req : Request).

Lemma Do_unreadable d req body e :
  ReqBody req = Some body -> fault body = Some e ->
  cachingDoer_Do req d = (Returns None (Some e), d, []).
Proof.
  intros Hb Hf. unfold cachingDoer_Do.
  rewrite (cacheKey_unreadable req body e Hb Hf). reflexivity.
Qed.

(** Unfold one call of the decorator on a request whose body can be read. *)
Ltac run_Do Hr :=
  unfold cachingDoer_Do;
  rewrite (cacheKey_readable _ Hr), ReqURL_rewound;
  rewrite <- (key_of_readable _ Hr);
  unfold bind, call_Get, call_Do, call_Set, ret;
  match goal with |- context [sanitizeURL (URL_String (ReqURL ?r))] =>
    fold (lookup_url r) end.

Lemma Do_hit d req c' cached :
  readable req ->
  Cache_Get (cache d) (lookup_url req) (key_of req) = (c', (cached, true)) ->
  cachingDoer_Do req d
  = (Returns (Some (replay cached (rewound req))) None,
     mkCachingDoer (inner d) c',
     [CallGet (lookup_url req) (key_of req)]).
Proof. intros Hr Hg. run_Do Hr. rewrite Hg. reflexivity. Qed.

Lemma Do_transport_error d req c' cached i' resp e :
  readable req ->
  Cache_Get (cache d) (lookup_url req) (key_of req) = (c', (cached, false)) ->
  Do (inner d) (rewound req) = (i', (resp, Some e)) ->
  cachingDoer_Do req d
  = (Returns resp (Some e),
     mkCachingDoer i' c',
     [CallGet (lookup_url req) (key_of req); CallDo (rewound req)]).
Proof.
  intros Hr Hg Hd. run_Do Hr. rewrite Hg. cbn [inner cache].
  rewrite Hd. reflexivity.
Qed.

Lemma Do_nil_response d req c' cached i' :
  readable req ->
  Cache_Get (cache d) (lookup_url req) (key_of req) = (c', (cached, false)) ->
  Do (inner d) (rewound req) = (i', (None, None)) ->
  cachingDoer_Do req d
  = (Panics, mkCachingDoer i' c',
     [CallGet (lookup_url req) (key_of req); CallDo (rewound req)]).
Proof.
  intros Hr Hg Hd. run_Do Hr. rewrite Hg. cbn [inner cache].
  rewrite Hd. reflexivity.
Qed.

Lemma Do_response_unreadable d req c' cached i' resp e :
  readable req ->
  Cache_Get (cache d) (lookup_url req) (key_of req) = (c', (cached, false)) ->
  Do (inner d) (rewound req) = (i', (Some resp, None)) ->
  fault (RespBody resp) = Some e ->
  cachingDoer_Do req d
  = (Returns (Some (set_RespBody resp (mkReadCloser [] (Some e) true))) (Some e),
     mkCachingDoer i' c',
     [CallGet (lookup_url req) (key_of req); CallDo (rewound req)]).
Proof.
  intros Hr Hg Hd Hf. run_Do Hr. rewrite Hg. cbn [inner cache].
  rewrite Hd. unfold io_ReadAll. rewrite Hf. reflexivity.
Qed.

Lemma Do_store d req c' cached i' resp :
  readable req ->
  Cache_Get (cache d) (lookup_url req) (key_of req) = (c', (cached, false)) ->
  Do (inner d) (rewound req) = (i', (Some resp, None)) ->
  fault (RespBody resp) = None ->
  strings_Contains (URL_String (ReqURL req)) "/rateLimits" = false ->
  cachingDoer_Do req d
  = (Returns (Some (set_RespBody resp (bytes_NewReader (pending (RespBody resp))))) None,
     mkCachingDoer i' (Cache_Set c' (lookup_url req) (key_of req) (snapshot resp)),
     [CallGet (lookup_url req) (key_of req); CallDo (rewound req);
      CallSet (lookup_url req) (key_of req) (snapshot resp)]).
Proof.
  intros Hr Hg Hd Hf Hs. run_Do Hr. rewrite Hg. cbn [inner cache].
  rewrite Hd. unfold io_ReadAll. rewrite Hf, Hs. reflexivity.
Qed.

Lemma Do_skip d req c' cached i' resp :
  readable req ->
  Cache_Get (cache d) (lookup_url req) (key_of req) = (c', (cached, false)) ->
  Do (inner d) (rewound req) = (i', (Some resp, None)) ->
  fault (RespBody resp) = None ->
  strings_Contains (URL_String (ReqURL req)) "/rateLimits" = true ->
  cachingDoer_Do req d
  = (Returns (Some (set_RespBody resp (bytes_NewReader (pending (RespBody resp))))) None,
     mkCachingDoer i' c',
     [CallGet (lookup_url req) (key_of req); CallDo (rewound req)]).
Proof.
  intros Hr Hg Hd Hf Hs. run_Do Hr. rewrite Hg. cbn [inner cache].
  rewrite Hd. unfold io_ReadAll. rewrite Hf, Hs. reflexivity.
Qed.

End DecoratorPaths.

(** ** C5: query strings and [sanitizeURL] *)

(** *** Escaping and unescaping a query component *)








(** *** Cutting at a one-byte separator *)









(** *** Parsing what [Values.Encode] writes *)








Lemma str_drop_length (n : nat) (s : string) :
  String.length (str_drop n s) = String.length s - n.
Proof.
  revert s. induction n as [|n IH]; intros [|c s]; cbn [str_drop String.length];
    try reflexivity; try lia.
  apply IH.
Qed.

Lemma Cut_rest_shorter (query sep key rest : string) (found : bool) :
  str_nonempty query = true -> str_nonempty sep = true ->
  strings_Cut query sep = (key, rest, found) ->
  String.length rest < String.length query.
Proof.
  intros Hq Hsep. unfold strings_Cut.
  destruct (strings_Index query sep) as [i|]; intros E; injection E as <- <- <-.
  - rewrite str_drop_length.
    destruct query; [discriminate Hq|]. destruct sep; [discriminate Hsep|].
    cbn [String.length]. lia.
  - destruct query; [discriminate Hq|]. cbn [String.length]. lia.
Qed.

(** The bound on the loop of [parseQuery] is never what stops it: any fuel
    above the length of the query gives the same map. *)
Lemma parseQuery_fuel (query : string) :
  forall (m : Values) (fuel1 fuel2 : nat),
    String.length query < fuel1 -> String.length query < fuel2 ->
    parseQuery fuel1 m query = parseQuery fuel2 m query.
Proof.
  remember (String.length query) as n eqn:Hn.
  revert query Hn. induction n as [n IH] using lt_wf_ind.
  intros query Hn m [|fuel1] [|fuel2] H1 H2; try lia.
  cbn [parseQuery].
  destruct (str_nonempty query) eqn:Hq; [|reflexivity]. cbn [negb].
  destruct (strings_Cut query "&") as [[key rest] found] eqn:Hcut.
  pose proof (Cut_rest_shorter query "&" key rest found Hq eq_refl Hcut) as Hlt.
  apply (IH (String.length rest)); [lia | reflexivity | lia | lia].
Qed.

















(** *** The deny-list *)









(** The cases of [TestSanitizeURL]. *)
Example TestSanitizeURL :
  @sanitizeURL plainStd "https://api.example.com/v1/data"
    = "https://api.example.com/v1/data"
  /\ @sanitizeURL plainStd "https://api.example.com/v1/data?apiKey=secret123&page=1"
    = "https://api.example.com/v1/data?page=1"
  /\ @sanitizeURL plainStd "https://api.example.com/v1/data?ApiKey=secret"
    = "https://api.example.com/v1/data"
  /\ @sanitizeURL plainStd "https://api.example.com/v1/data?api_key=secret"
    = "https://api.example.com/v1/data"
  /\ @sanitizeURL plainStd "https://api.example.com/v1/data?api-key=secret"
    = "https://api.example.com/v1/data"
  /\ @sanitizeURL plainStd "https://api.example.com/v1/data?token=abc"
    = "https://api.example.com/v1/data"
  /\ @sanitizeURL plainStd "https://api.example.com/v1/data?access_token=abc"
    = "https://api.example.com/v1/data"
  /\ @sanitizeURL plainStd "https://api.example.com/v1/data?authorization=bearer+abc"
    = "https://api.example.com/v1/data"
  /\ @sanitizeURL plainStd "https://api.example.com/v1/data?page=1&limit=10"
    = "https://api.example.com/v1/data?limit=10&page=1".
Proof. repeat split; vm_compute; reflexivity. Qed.

(** ** C2, C3, C4, C6, C7, C10: the caching decorator *)

Section DecoratorRuns.
Context `{GoStd} {D C : Type} `{HttpRequestDoer D} `{Cache C}.
Implicit Types (d : cachingDoer D C) (req : Request).

Lemma Do_all_cons d req reqs o d1 calls1 os d2 calls2 :
  cachingDoer_Do req d = (o, d1, calls1) ->
  Do_all reqs d1 = (os, d2, calls2) ->
  Do_all (req :: reqs) d = (o :: os, d2, calls1 ++ calls2).
Proof.
  intros H1' H2'. cbn [Do_all]. unfold bind, ret. rewrite H1', H2'.
  rewrite app_nil_r. reflexivity.
Qed.

Lemma Do_all_nil d : Do_all [] d = ([], d, []).
Proof. reflexivity. Qed.

Lemma Do_calls_readable d req :
  readable req ->
  let calls := snd (cachingDoer_Do req d) in
  exists rest,
    calls = CallGet (lookup_url req) (key_of req) :: rest
    /\ (rest = []
        \/ rest = [CallDo (rewound req)]
        \/ exists resp,
             strings_Contains (URL_String (ReqURL req)) "/rateLimits" = false
             /\ rest = [CallDo (rewound req);
                        CallSet (lookup_url req) (key_of req) (snapshot resp)]).
Proof.
  intros Hr. cbv zeta.
  destruct (Cache_Get (cache d) (lookup_url req) (key_of req))
    as [c' [cached [|]]] eqn:Hg.
  { rewrite (Do_hit _ _ _ _ Hr Hg). eexists. split; [reflexivity|]. left. reflexivity. }
  destruct (Do (inner d) (rewound req)) as [i' [[resp|] [e|]]] eqn:Hd.
  - rewrite (Do_transport_error _ _ _ _ _ _ _ Hr Hg Hd).
    eexists. split; [reflexivity|]. right; left; reflexivity.
  - destruct (fault (RespBody resp)) as [e|] eqn:Hf.
    + rewrite (Do_response_unreadable _ _ _ _ _ _ _ Hr Hg Hd Hf).
      eexists. split; [reflexivity|]. right; left; reflexivity.
    + destruct (strings_Contains (URL_String (ReqURL req)) "/rateLimits") eqn:Hs.
      * rewrite (Do_skip _ _ _ _ _ _ Hr Hg Hd Hf Hs).
        eexists. split; [reflexivity|]. right; left; reflexivity.
      * rewrite (Do_store _ _ _ _ _ _ Hr Hg Hd Hf Hs).
        eexists. split; [reflexivity|]. right; right. exists resp. split; reflexivity.
  - rewrite (Do_transport_error _ _ _ _ _ _ _ Hr Hg Hd).
    eexists. split; [reflexivity|]. right; left; reflexivity.
  - rewrite (Do_nil_response _ _ _ _ _ Hr Hg Hd).
    eexists. split; [reflexivity|]. right; left; reflexivity.
Qed.

(** Either the body can be read, or reading it fails with some error. *)
Lemma readable_or_not req :
  readable req
  \/ exists body e, ReqBody req = Some body /\ fault body = Some e.
Proof.
  unfold readable. destruct (ReqBody req) as [body|]; [|left; exact I].
  destruct (fault body) as [e|] eqn:Hf; [right; eauto | left; reflexivity].
Qed.

(** Every call to the cache carries the sanitized URL and the key of the
    request; every call to the transport carries the rewound request. *)
Lemma Do_call_arguments d req call :
  In call (snd (cachingDoer_Do req d)) ->
  match call with
  | CallGet url key => url = lookup_url req /\ key = key_of req
  | CallSet url key _ =>
      url = lookup_url req /\ key = key_of req
      /\ strings_Contains (URL_String (ReqURL req)) "/rateLimits" = false
  | CallDo sent => sent = rewound req
  end.
Proof.
  destruct (readable_or_not req) as [Hr | (body & e & Hb & Hf)].
  - destruct (Do_calls_readable d req Hr) as [rest [-> Hrest]].
    intros [<- | Hin]; [split; reflexivity|].
    destruct Hrest as [-> | [-> | [resp [Hs ->]]]].
    + destruct Hin.
    + destruct Hin as [<- | []]. reflexivity.
    + destruct Hin as [<- | [<- | []]]; [reflexivity | repeat split; exact Hs].
  - rewrite (Do_unreadable _ _ _ _ Hb Hf). intros [].
Qed.
End DecoratorRuns.

(** C6.  When the body of a request can be read, [cacheKey] reads all of it,
    hashes it, and leaves in the request a new, unread stream over the same
    bytes: reading that stream to its end gives the original bytes and no
    error, and method, URL and header are untouched.  The request that
    [cachingDoer.Do] hands to the wrapped transport, whenever it hands one
    over, is that request. *)
Theorem cacheKey_restores_body :
  forall (G : GoStd) (req : Request) (body : ReadCloser),
    ReqBody req = Some body ->
    fault body = None ->
    let '(_, bodyBytes, err, req') := cacheKey req in
    err = None
    /\ bodyBytes = pending body
    /\ ReqBody req' = Some (bytes_NewReader (pending body))
    /\ (exists rd, ReqBody req' = Some rd
                   /\ fst (io_ReadAll rd) = (pending body, None))
    /\ (Method req', ReqURL req', ReqHeader req')
       = (Method req, ReqURL req, ReqHeader req)
    /\ forall (D C : Type) (HD : HttpRequestDoer D) (HC : Cache C)
              (d : cachingDoer D C) (sent : Request),
         In (CallDo sent) (snd (cachingDoer_Do req d)) -> sent = req'.
Proof.
  intros G req body Hb Hf.
  assert (Hr : readable req) by (unfold readable; rewrite Hb; exact Hf).
  rewrite (cacheKey_readable req Hr).
  unfold body_bytes. rewrite Hb.
  split; [reflexivity|]. split; [reflexivity|].
  split; [unfold rewound; rewrite Hb; reflexivity|].
  split; [unfold rewound; rewrite Hb; eexists; split; reflexivity|].
  split; [unfold rewound; rewrite Hb; reflexivity|].
  intros D C HD HC d sent Hin.
  exact (Do_call_arguments d req (CallDo sent) Hin).
Qed.

Lemma cacheKey_restores_body_witness :
  ReqBody (snd (@cacheKey plainStd (postRequest "/v1/affiliates/query" (bytes_of "{}"))))
  = Some (bytes_NewReader (bytes_of "{}")).
Proof.
  pose proof (cacheKey_restores_body plainStd
                (postRequest "/v1/affiliates/query" (bytes_of "{}"))
                (bytes_NewReader (bytes_of "{}")) eq_refl eq_refl) as Hc.
  destruct (@cacheKey plainStd (postRequest "/v1/affiliates/query" (bytes_of "{}")))
    as [[[key bodyBytes] err] req'].
  destruct Hc as (_ & _ & Hbody & _).
  exact Hbody.
Defined.

(** C2.  For a request whose body can be read: if the lookup with the
    sanitized URL and the key reports found, [Do] returns, with no error, the
    response rebuilt from the stored status code, header and body; the lookup
    is the only call made and the wrapped transport is left as it was.  And
    when a first request missed, got a response with a readable body from the
    transport on a route that is not skipped, and the cache finds what was
    just stored, the same request sent again is answered from the cache: of
    the calls of the two requests exactly one went to the transport. *)
Theorem cache_hit_skips_transport :
  forall (G : GoStd) (D C : Type) (HD : HttpRequestDoer D) (HC : Cache C)
         (d : cachingDoer D C) (req : Request),
    readable req ->
    (forall c' cached,
        Cache_Get (cache d) (lookup_url req) (key_of req) = (c', (cached, true)) ->
        cachingDoer_Do req d
        = (Returns (Some (mkResponse (CachedStatusCode cached) (CachedHeader cached)
                            (bytes_NewReader (CachedBody cached)) (rewound req)))
                   None,
           mkCachingDoer (inner d) c',
           [CallGet (lookup_url req) (key_of req)]))
    /\ (forall c' cached i' resp c'',
          Cache_Get (cache d) (lookup_url req) (key_of req) = (c', (cached, false)) ->
          Do (inner d) (rewound req) = (i', (Some resp, None)) ->
          fault (RespBody resp) = None ->
          strings_Contains (URL_String (ReqURL req)) "/rateLimits" = false ->
          Cache_Get (Cache_Set c' (lookup_url req) (key_of req) (snapshot resp))
                    (lookup_url req) (key_of req)
          = (c'', (snapshot resp, true)) ->
          exists first calls,
            Do_all [req; req] d
            = ([first;
                Returns (Some (mkResponse (StatusCode resp) (RespHeader resp)
                                 (bytes_NewReader (pending (RespBody resp)))
                                 (rewound req)))
                        None],
               mkCachingDoer i' c'', calls)
            /\ transport_calls calls = 1).
Proof.
  intros G D C HD HC d req Hr. split.
  - intros c' cached Hg. exact (Do_hit d req c' cached Hr Hg).
  - intros c' cached i' resp c'' Hg Hd Hf Hs Hlaw.
    eexists. eexists. split.
    + eapply Do_all_cons; [exact (Do_store d req c' cached i' resp Hr Hg Hd Hf Hs)|].
      eapply Do_all_cons; [|apply Do_all_nil].
      exact (Do_hit (mkCachingDoer i' (Cache_Set c' (lookup_url req) (key_of req) (snapshot resp)))
               req c'' (snapshot resp) Hr Hlaw).
    + reflexivity.
Qed.

Lemma mapCache_Get_after_Set (c : mapCache) (url key : string) (resp : CachedResponse) :
  Cache_Get (Cache_Set c url key resp) url key
  = (Cache_Set c url key resp, (resp, true)).
Proof. cbn. rewrite lookup_insert_eq. reflexivity. Qed.

Lemma mapCache_Get_absent (c : mapCache) (url key : string) :
  store c !! key = None ->
  Cache_Get c url key = (c, (zeroCachedResponse, false)).
Proof. intros Hk. cbn. rewrite Hk. reflexivity. Qed.

Lemma cache_hit_skips_transport_witness :
  calls (inner (snd (fst
    (@Do_all plainStd fakeDoer mapCache _ _
       [getRequest "/v1/affiliates/some-id"; getRequest "/v1/affiliates/some-id"]
       (mkCachingDoer (mkFakeDoer 0) newMapCache))))) = 1.
Proof.
  pose proof (cache_hit_skips_transport plainStd fakeDoer mapCache _ _
                (mkCachingDoer (mkFakeDoer 0) newMapCache)
                (getRequest "/v1/affiliates/some-id") I) as [_ Hsecond].
  destruct (Hsecond newMapCache zeroCachedResponse (mkFakeDoer 1) _ _
              eq_refl eq_refl eq_refl eq_refl (mapCache_Get_after_Set _ _ _ _))
    as (first & log & Hrun & _).
  rewrite Hrun. reflexivity.
Defined.







(** C10.  On a miss, when the wrapped transport returns a response with no
    error, the body of the response can be read, and the URL of the request
    does not contain [/rateLimits], [Do] calls [Set] with the sanitized URL,
    the key, and the status code, header and body of the response, whatever
    the status code is, and returns the response with a fresh body. *)
Theorem every_status_is_stored :
  forall (G : GoStd) (D C : Type) (HD : HttpRequestDoer D) (HC : Cache C)
         (d : cachingDoer D C) (req : Request) c' cached i' (resp : Response),
    readable req ->
    Cache_Get (cache d) (lookup_url req) (key_of req) = (c', (cached, false)) ->
    Do (inner d) (rewound req) = (i', (Some resp, None)) ->
    fault (RespBody resp) = None ->
    strings_Contains (URL_String (ReqURL req)) "/rateLimits" = false ->
    let stored := mkCachedResponse (StatusCode resp) (RespHeader resp)
                                   (pending (RespBody resp)) in
    cachingDoer_Do req d
    = (Returns (Some (set_RespBody resp (bytes_NewReader (pending (RespBody resp))))) None,
       mkCachingDoer i'
         (Cache_Set c' (sanitizeURL (URL_String (ReqURL req))) (key_of req) stored),
       [CallGet (sanitizeURL (URL_String (ReqURL req))) (key_of req);
        CallDo (rewound req);
        CallSet (sanitizeURL (URL_String (ReqURL req))) (key_of req) stored]).
Proof.
  intros G D C HD HC d req c' cached i' resp Hr Hg Hd Hf Hs.
  exact (Do_store d req c' cached i' resp Hr Hg Hd Hf Hs).
Qed.

Lemma every_status_is_stored_witness :
  exists key,
    store (cache (snd (fst
      (@cachingDoer_Do plainStd cannedDoer mapCache _ _
         (getRequest "/v1/usr/00032112")
         (mkCachingDoer (mkCannedDoer 500) newMapCache))))) !! key
    = Some (mkCachedResponse 500 ∅ []).
Proof.
  exists (@key_of plainStd (getRequest "/v1/usr/00032112")).
  assert (Hg : @Cache_Get mapCache _ newMapCache
                 (@lookup_url plainStd (getRequest "/v1/usr/00032112"))
                 (@key_of plainStd (getRequest "/v1/usr/00032112"))
               = (newMapCache, (zeroCachedResponse, false)))
    by reflexivity.
  assert (Hd : Do (mkCannedDoer 500) (rewound (getRequest "/v1/usr/00032112"))
               = (mkCannedDoer 500,
                  (Some (mkResponse 500 ∅ (bytes_NewReader [])
                           (getRequest "/v1/usr/00032112")), None)))
    by reflexivity.
  rewrite (every_status_is_stored plainStd cannedDoer mapCache _ _
             (mkCachingDoer (mkCannedDoer 500) newMapCache)
             (getRequest "/v1/usr/00032112") _ _ _ _
             I Hg Hd eq_refl eq_refl).
  cbn [fst snd cache]. apply lookup_insert_eq.
Defined.

(** * Further properties *)

(** ** The two routers *)

Lemma TrimPrefix_slash_cons (p : string) :
  strings_TrimPrefix (String "/" p) "/" = p.
Proof. reflexivity. Qed.

Lemma TrimPrefix_no_slash (p : string) :
  strings_HasPrefix p "/" = false -> strings_TrimPrefix p "/" = p.
Proof. intros Hp. unfold strings_TrimPrefix. rewrite Hp. reflexivity. Qed.

(** X1.  A path is routed the same with and without one leading slash: for a
    path that does not start with a slash, putting one in front changes
    neither the API key nor the usage category. *)
Theorem routers_ignore_one_leading_slash :
  forall (keys : APIKeys) (p : string),
    strings_HasPrefix p "/" = false ->
    apiKeyForPath keys (String "/" p) = apiKeyForPath keys p
    /\ aPITypeForPath (String "/" p) = aPITypeForPath p.
Proof.
  intros keys p Hp. unfold apiKeyForPath, aPITypeForPath.
  rewrite TrimPrefix_slash_cons, (TrimPrefix_no_slash p Hp). split; reflexivity.
Qed.

Lemma routers_ignore_one_leading_slash_witness :
  apiKeyForPath testKeys "/v1/affiliates/query" = apiKeyForPath testKeys "v1/affiliates/query"
  /\ aPITypeForPath "/v1/affiliates/query" = aPITypeForPath "v1/affiliates/query".
Proof. exact (routers_ignore_one_leading_slash testKeys "v1/affiliates/query" eq_refl). Defined.

(** X2.  Only one leading slash is stripped: every path that starts with two
    slashes gets the data/analytics key and the category [data], whatever
    follows. *)
Theorem routers_strip_a_single_slash :
  forall (keys : APIKeys) (p : string),
    apiKeyForPath keys (String "/" (String "/" p)) = DataAnalytics keys
    /\ aPITypeForPath (String "/" (String "/" p)) = "data".
Proof. intros keys p. split; reflexivity. Qed.

Lemma HasPrefix_extend (a s pre : string) :
  strings_HasPrefix a pre = true -> strings_HasPrefix (a +:+ s) pre = true.
Proof.
  intros Hp. apply HasPrefix_iff in Hp as [r ->].
  rewrite append_assoc. apply HasPrefix_app.
Qed.

Lemma existsb_HasPrefix_extend (a s : string) (l : list string) :
  existsb (strings_HasPrefix a) l = true ->
  existsb (strings_HasPrefix (a +:+ s)) l = true.
Proof.
  rewrite !existsb_exists. intros [pre [Hin Hp]].
  exists pre. split; [exact Hin | apply HasPrefix_extend, Hp].
Qed.

Lemma TrimPrefix_slash_extend (p s : string) :
  str_nonempty (strings_TrimPrefix p "/") = true ->
  strings_TrimPrefix (p +:+ s) "/" = strings_TrimPrefix p "/" +:+ s.
Proof.
  destruct p as [|c p]; [intros Hne; discriminate Hne|]. intros _.
  rewrite append_cons. unfold strings_TrimPrefix. cbn [strings_HasPrefix].
  destruct (Ascii.eqb c "/"); reflexivity.
Qed.

Lemma existsb_HasPrefix_nonempty (a : string) (l : list string) :
  existsb (strings_HasPrefix a) l = true ->
  Forall (fun pre => str_nonempty pre = true) l ->
  str_nonempty a = true.
Proof.
  rewrite existsb_exists. intros [pre [Hin Hp]] Hall.
  rewrite Forall_forall in Hall. specialize (Hall pre).
  apply HasPrefix_iff in Hp as [r ->].
  destruct pre; [|reflexivity].
  assert (Hne : str_nonempty EmptyString = true) by (apply Hall, list_elem_of_In, Hin).
  discriminate Hne.
Qed.

(** X3.  Routing by prefix is stable under extension: once a path is
    classified [custom] or [analysis], every path that continues it is
    classified the same; and once a path has one of the three prefixes with a
    key of their own, every path that continues it gets the same key. *)
Theorem routers_stable_under_extension :
  forall (keys : APIKeys) (p s : string),
    (aPITypeForPath p <> "data" -> aPITypeForPath (p +:+ s) = aPITypeForPath p)
    /\ (existsb (strings_HasPrefix (strings_TrimPrefix p "/")) credentialPrefixes = true ->
        apiKeyForPath keys (p +:+ s) = apiKeyForPath keys p).
Proof.
  intros keys p s. split.
  - unfold aPITypeForPath.
    destruct (existsb (strings_HasPrefix (strings_TrimPrefix p "/")) customPrefixes)
      eqn:Hc.
    + intros _.
      rewrite TrimPrefix_slash_extend
        by (apply (existsb_HasPrefix_nonempty _ _ Hc); repeat constructor).
      rewrite (existsb_HasPrefix_extend _ s _ Hc). reflexivity.
    + destruct (existsb (strings_HasPrefix (strings_TrimPrefix p "/")) analysisPrefixes)
        eqn:Ha; [|intros Hd; exfalso; apply Hd; reflexivity].
      intros _.
      rewrite TrimPrefix_slash_extend
        by (apply (existsb_HasPrefix_nonempty _ _ Ha); repeat constructor).
      pose proof (existsb_HasPrefix_extend _ s _ Ha) as Ha'.
      apply existsb_exists in Ha' as [pre [Hin Hp]].
      rewrite (analysis_excludes_custom _ pre Hin Hp).
      rewrite (existsb_HasPrefix_intro _ pre _ Hin Hp). reflexivity.
  - intros Hc. unfold apiKeyForPath.
    rewrite TrimPrefix_slash_extend
      by (apply (existsb_HasPrefix_nonempty _ _ Hc); repeat constructor).
    set (t := strings_TrimPrefix p "/") in *.
    cbn [existsb credentialPrefixes] in Hc.
    destruct (strings_HasPrefix t "v1/contractors/pdf-file/") eqn:H1.
    { rewrite (HasPrefix_extend t s _ H1). reflexivity. }
    destruct (strings_HasPrefix t "v1/individuals/pdf-reports") eqn:H2.
    { rewrite (HasPrefix_extend t s _ H2).
      expose_prefix H2. rewrite H2, append_assoc. reflexivity. }
    destruct (strings_HasPrefix t "v1/affiliates") eqn:H3; [|discriminate Hc].
    rewrite (HasPrefix_extend t s _ H3).
    expose_prefix H3. rewrite H3, append_assoc. reflexivity.
Qed.

Lemma routers_stable_under_extension_witness :
  aPITypeForPath ("/v1/sanctions" +:+ "/00032112") = "analysis"
  /\ apiKeyForPath testKeys ("/v1/contractors/pdf-file/" +:+ "00032112") = "pdf-legal-key".
Proof.
  pose proof (routers_stable_under_extension testKeys "/v1/sanctions" "/00032112")
    as [Htype _].
  pose proof (routers_stable_under_extension testKeys "/v1/contractors/pdf-file/" "00032112")
    as [_ Hkey].
  split.
  - rewrite Htype; [reflexivity | intros E; discriminate E].
  - rewrite Hkey; reflexivity.
Defined.

(** X4.  The two routers agree: a path that is not classified [custom] is
    always sent with the data/analytics key, so the three other keys are
    only ever used on [custom] endpoints. *)
Theorem only_custom_paths_use_other_keys :
  forall (keys : APIKeys) (path : string),
    aPITypeForPath path <> "custom" ->
    apiKeyForPath keys path = DataAnalytics keys.
Proof.
  intros keys path Hnot. unfold apiKeyForPath, aPITypeForPath in *.
  set (t := strings_TrimPrefix path "/") in *.
  assert (Hc : existsb (strings_HasPrefix t) customPrefixes = false).
  { destruct (existsb (strings_HasPrefix t) customPrefixes); [|reflexivity].
    exfalso. apply Hnot. reflexivity. }
  cbn [existsb customPrefixes] in Hc.
  repeat (apply orb_false_iff in Hc as [? Hc]).
  repeat match goal with H : strings_HasPrefix t _ = false |- _ => rewrite H; clear H end.
  reflexivity.
Qed.

Lemma only_custom_paths_use_other_keys_witness :
  apiKeyForPath testKeys "/v1/sanctions" = "da-key".
Proof.
  apply (only_custom_paths_use_other_keys testKeys "/v1/sanctions").
  intros E. discriminate E.
Defined.

(** ** The credential editors and the cache key *)

Lemma Header_Set_twice (h : Header) (key v1 v2 : string) :
  Header_Set (Header_Set h key v1) key v2 = Header_Set h key v2.
Proof. unfold Header_Set. apply insert_insert_eq. Qed.

(** X5.  The credential editors overwrite each other, the last one applied
    deciding: running the per-route editor on a request already edited by the
    static one (or by itself) gives exactly what the per-route editor gives on
    the untouched request, and the other way round. *)
Theorem last_credential_editor_wins :
  forall (Ctx U : Type) (keys : APIKeys) (apiKey : string)
         (ctx : Ctx) (req : Request) (u : U),
    let edit (e : RequestEditorFn Ctx U) (r : Request) := snd (fst (e ctx r u)) in
    edit (apiKeysEditor keys) (edit (bearerAuthEditor apiKey) req)
      = edit (apiKeysEditor keys) req
    /\ edit (bearerAuthEditor apiKey) (edit (apiKeysEditor keys) req)
      = edit (bearerAuthEditor apiKey) req
    /\ edit (apiKeysEditor keys) (edit (apiKeysEditor keys) req)
      = edit (apiKeysEditor keys) req.
Proof.
  intros Ctx U keys apiKey ctx req u edit. unfold edit.
  unfold apiKeysEditor, bearerAuthEditor, set_ReqHeader.
  cbn [fst snd Method ReqURL ReqHeader ReqBody].
  rewrite !Header_Set_twice. repeat split.
Qed.

Lemma cacheKey_ignores_header `{GoStd} (req : Request) (h : Header) :
  fst (cacheKey (set_ReqHeader req h)) = fst (cacheKey req).
Proof.
  unfold cacheKey, set_ReqHeader, set_ReqBody.
  cbn [Method ReqURL ReqHeader ReqBody].
  destruct (ReqBody req) as [body|]; [|reflexivity].
  unfold io_ReadAll. destruct (fault body); reflexivity.
Qed.

(** X6.  The credential is no part of a request's identity in the cache:
    editing a request with the per-route or the static credential editor
    changes neither its key, nor the body bytes and error [cacheKey] returns,
    nor the URL shown to the cache. *)
Theorem credential_editors_keep_cache_identity :
  forall (G : GoStd) (Ctx U : Type) (keys : APIKeys) (apiKey : string)
         (ctx : Ctx) (req : Request) (u : U),
    let edited1 := snd (fst (apiKeysEditor keys ctx req u)) in
    let edited2 := snd (fst (bearerAuthEditor apiKey ctx req u)) in
    fst (cacheKey edited1) = fst (cacheKey req)
    /\ fst (cacheKey edited2) = fst (cacheKey req)
    /\ key_of edited1 = key_of req /\ key_of edited2 = key_of req
    /\ lookup_url edited1 = lookup_url req /\ lookup_url edited2 = lookup_url req.
Proof.
  intros G Ctx U keys apiKey ctx req u edited1 edited2.
  unfold edited1, edited2, apiKeysEditor, bearerAuthEditor, key_of. cbn [fst snd].
  rewrite !cacheKey_ignores_header. repeat split.
Qed.

Lemma lower_hex_EncodeToString (x : list Byte.byte) :
  lower_hex (hex_EncodeToString x) = true.
Proof.
  unfold lower_hex. induction x as [|b x IH]; [reflexivity|].
  cbn [hex_EncodeToString]. cbv zeta. cbn [str_forall]. rewrite IH.
  destruct b; reflexivity.
Qed.

(** X7.  The key of a request whose body can be read is made of lower-case
    hexadecimal digits, two for every byte of the digest, so 64 of them for a
    32-byte digest; when reading the body fails the key is the empty string. *)
Theorem cacheKey_is_lower_hex :
  forall (G : GoStd) (req : Request),
    (readable req ->
       lower_hex (key_of req) = true
       /\ String.length (key_of req)
          = 2 * List.length (sha256_Sum256 (key_preimage req))
       /\ (List.length (sha256_Sum256 (key_preimage req)) = 32 ->
           String.length (key_of req) = 64))
    /\ (~ readable req -> key_of req = EmptyString).
Proof.
  intros G req. split.
  - intros Hr. rewrite (key_of_readable req Hr).
    split; [apply lower_hex_EncodeToString|].
    split; [apply hex_EncodeToString_length|].
    intros H32. rewrite hex_EncodeToString_length, H32. reflexivity.
  - intros Hn. unfold readable in Hn. unfold key_of, cacheKey, io_ReadAll.
    destruct (ReqBody req) as [body|]; [|exfalso; apply Hn; exact I].
    destruct (fault body); [reflexivity | exfalso; apply Hn; reflexivity].
Qed.

Lemma cacheKey_is_lower_hex_witness :
  String.length (@key_of plainStd (getRequest "/v")) = 64
  /\ @key_of plainStd brokenRequest = EmptyString.
Proof.
  pose proof (cacheKey_is_lower_hex plainStd (getRequest "/v")) as [Hok _].
  pose proof (cacheKey_is_lower_hex plainStd brokenRequest) as [_ Hbad].
  split.
  - destruct (Hok I) as (_ & _ & H64). apply H64. reflexivity.
  - apply Hbad. intros Hr. discriminate Hr.
Defined.

(** X8.  A request without a body and the same request with a body of no
    bytes have the same key, the same (empty) body bytes and no error. *)
Theorem cacheKey_no_body_is_empty_body :
  forall (G : GoStd) (req : Request),
    ReqBody req = None ->
    fst (cacheKey (set_ReqBody req (Some (bytes_NewReader []))))
    = fst (cacheKey req)
    /\ fst (cacheKey req)
       = (hex_EncodeToString
            (sha256_Sum256 (bytes_of (Method req) ++ bytes_of (URL_String (ReqURL req)))),
          [], None).
Proof.
  intros G req Hb. unfold cacheKey, set_ReqBody, io_ReadAll, bytes_NewReader,
    hash_Sum, hash_Write, sha256_New.
  cbn [Method ReqURL ReqHeader ReqBody pending fault closed fst].
  rewrite Hb. cbn [fst app]. rewrite app_nil_r. split; reflexivity.
Qed.

Lemma cacheKey_no_body_is_empty_body_witness :
  @key_of plainStd (set_ReqBody (getRequest "/v1/usr/00032112") (Some (bytes_NewReader [])))
  = @key_of plainStd (getRequest "/v1/usr/00032112").
Proof.
  unfold key_of.
  destruct (cacheKey_no_body_is_empty_body plainStd (getRequest "/v1/usr/00032112") eq_refl)
    as [Heq _].
  rewrite Heq. reflexivity.
Defined.

(** ** [sanitizeURL] applied twice *)











(** ** More on the caching decorator *)

(** X10.  When the lookup misses and the transport answers without an error
    but the body of its response cannot be read to the end, [Do] returns that
    response together with the read error; the body it carries is drained and
    closed, nothing is stored, and the calls are the lookup and the dispatch
    only. *)
Theorem unreadable_response_is_returned_uncached :
  forall (G : GoStd) (D C : Type) (HD : HttpRequestDoer D) (HC : Cache C)
         (d : cachingDoer D C) (req : Request) c' cached i' (resp : Response)
         (e : error),
    readable req ->
    Cache_Get (cache d) (lookup_url req) (key_of req) = (c', (cached, false)) ->
    Do (inner d) (rewound req) = (i', (Some resp, None)) ->
    fault (RespBody resp) = Some e ->
    cachingDoer_Do req d
    = (Returns (Some (mkResponse (StatusCode resp) (RespHeader resp)
                        (mkReadCloser [] (Some e) true) (RespRequest resp)))
               (Some e),
       mkCachingDoer i' c',
       [CallGet (lookup_url req) (key_of req); CallDo (rewound req)]).
Proof.
  intros G D C HD HC d req c' cached i' resp e Hr Hg Hd Hf.
  exact (Do_response_unreadable d req c' cached i' resp e Hr Hg Hd Hf).
Qed.

Lemma unreadable_response_is_returned_uncached_witness :
  store (cache (snd (fst
    (@cachingDoer_Do plainStd flakyDoer mapCache _ _
       (getRequest "/v1/usr/00032112")
       (mkCachingDoer (mkFlakyDoer 0) newMapCache))))) = ∅.
Proof.
  assert (Hg : @Cache_Get mapCache _ newMapCache
                 (@lookup_url plainStd (getRequest "/v1/usr/00032112"))
                 (@key_of plainStd (getRequest "/v1/usr/00032112"))
               = (newMapCache, (zeroCachedResponse, false)))
    by reflexivity.
  assert (Hd : Do (mkFlakyDoer 0) (rewound (getRequest "/v1/usr/00032112"))
               = (mkFlakyDoer 1,
                  (Some (mkResponse 200 ∅
                           (mkReadCloser (bytes_of "{") (Some "unexpected EOF") false)
                           (getRequest "/v1/usr/00032112")), None)))
    by reflexivity.
  rewrite (unreadable_response_is_returned_uncached plainStd flakyDoer mapCache _ _
             (mkCachingDoer (mkFlakyDoer 0) newMapCache)
             (getRequest "/v1/usr/00032112") _ _ _ _ _
             I Hg Hd eq_refl).
  reflexivity.
Defined.

(** X11.  A transport that returns neither a response nor an error makes
    [Do] panic: after the lookup and the dispatch it dereferences the nil
    response; nothing is stored. *)
Theorem nil_response_without_error_panics :
  forall (G : GoStd) (D C : Type) (HD : HttpRequestDoer D) (HC : Cache C)
         (d : cachingDoer D C) (req : Request) c' cached i',
    readable req ->
    Cache_Get (cache d) (lookup_url req) (key_of req) = (c', (cached, false)) ->
    Do (inner d) (rewound req) = (i', (None, None)) ->
    cachingDoer_Do req d
    = (Panics, mkCachingDoer i' c',
       [CallGet (lookup_url req) (key_of req); CallDo (rewound req)]).
Proof.
  intros G D C HD HC d req c' cached i' Hr Hg Hd.
  exact (Do_nil_response d req c' cached i' Hr Hg Hd).
Qed.

Lemma nil_response_without_error_panics_witness :
  fst (fst (@cachingDoer_Do plainStd silentDoer mapCache _ _
              (getRequest "/v1/usr/00032112")
              (mkCachingDoer (mkSilentDoer 0) newMapCache))) = Panics.
Proof.
  assert (Hg : @Cache_Get mapCache _ newMapCache
                 (@lookup_url plainStd (getRequest "/v1/usr/00032112"))
                 (@key_of plainStd (getRequest "/v1/usr/00032112"))
               = (newMapCache, (zeroCachedResponse, false)))
    by reflexivity.
  assert (Hd : Do (mkSilentDoer 0) (rewound (getRequest "/v1/usr/00032112"))
               = (mkSilentDoer 1, (None, None)))
    by reflexivity.
  rewrite (nil_response_without_error_panics plainStd silentDoer mapCache _ _
             (mkCachingDoer (mkSilentDoer 0) newMapCache)
             (getRequest "/v1/usr/00032112") _ _ _ I Hg Hd).
  reflexivity.
Defined.

(** X12.  The calls of one request follow a fixed protocol, whatever the
    collaborators do: none at all (and an error returned); or the lookup
    alone (and a response returned without error); or the lookup followed by
    one dispatch; or lookup, dispatch and one store, which happens only when
    [Do] returns a response without error and the URL does not contain
    [/rateLimits].  The transport is never called twice, and never before the
    lookup; the store never happens without a dispatch. *)
Theorem Do_call_protocol :
  forall (G : GoStd) (D C : Type) (HD : HttpRequestDoer D) (HC : Cache C)
         (d : cachingDoer D C) (req : Request),
    let out := fst (fst (cachingDoer_Do req d)) in
    let calls := snd (cachingDoer_Do req d) in
    let get := CallGet (lookup_url req) (key_of req) in
    (calls = [] /\ exists e, out = Returns None (Some e))
    \/ (calls = [get] /\ exists resp, out = Returns (Some resp) None)
    \/ calls = [get; CallDo (rewound req)]
    \/ (exists resp stored,
          calls = [get; CallDo (rewound req);
                   CallSet (lookup_url req) (key_of req) stored]
          /\ out = Returns (Some resp) None
          /\ stored = mkCachedResponse (StatusCode resp) (RespHeader resp)
                                       (pending (RespBody resp))
          /\ strings_Contains (URL_String (ReqURL req)) "/rateLimits" = false).
Proof.
  intros G D C HD HC d req. cbv zeta.
  destruct (readable_or_not req) as [Hr | (body & e & Hb & Hf)].
  2: { left. rewrite (Do_unreadable _ _ _ _ Hb Hf). split; [reflexivity | eauto]. }
  right.
  destruct (Cache_Get (cache d) (lookup_url req) (key_of req))
    as [c' [cached [|]]] eqn:Hg.
  { left. rewrite (Do_hit _ _ _ _ Hr Hg). split; [reflexivity | eauto]. }
  right.
  destruct (Do (inner d) (rewound req)) as [i' [[resp|] [e|]]] eqn:Hd.
  - left. rewrite (Do_transport_error _ _ _ _ _ _ _ Hr Hg Hd). reflexivity.
  - destruct (fault (RespBody resp)) as [e|] eqn:Hf.
    + left. rewrite (Do_response_unreadable _ _ _ _ _ _ _ Hr Hg Hd Hf). reflexivity.
    + destruct (strings_Contains (URL_String (ReqURL req)) "/rateLimits") eqn:Hs.
      * left. rewrite (Do_skip _ _ _ _ _ _ Hr Hg Hd Hf Hs). reflexivity.
      * right. rewrite (Do_store _ _ _ _ _ _ Hr Hg Hd Hf Hs).
        eexists. eexists. split; [reflexivity|]. split; [reflexivity|].
        split; [|reflexivity]. reflexivity.
  - left. rewrite (Do_transport_error _ _ _ _ _ _ _ Hr Hg Hd). reflexivity.
  - left. rewrite (Do_nil_response _ _ _ _ _ Hr Hg Hd). reflexivity.
Qed.

Lemma mapCache_Get_present (c : mapCache) (url key : string) (cached : CachedResponse) :
  store c !! key = Some cached ->
  Cache_Get c url key = (c, (cached, true)).
Proof. intros Hk. cbn. rewrite Hk. reflexivity. Qed.

(** X13.  With the map-backed cache, one answer serves for good: when the
    first of [n + 1] identical requests misses and the transport answers it
    with a readable response on a route that is stored, the transport is
    called exactly once in all, whatever it would have done the next times,
    and every later request is answered with the stored status, header and
    body. *)
Theorem repeated_request_dispatches_once :
  forall (G : GoStd) (D : Type) (HD : HttpRequestDoer D)
         (d : cachingDoer D mapCache) (req : Request) i' (resp : Response) (n : nat),
    readable req ->
    store (cache d) !! key_of req = None ->
    Do (inner d) (rewound req) = (i', (Some resp, None)) ->
    fault (RespBody resp) = None ->
    strings_Contains (URL_String (ReqURL req)) "/rateLimits" = false ->
    let run := Do_all (replicate (S n) req) d in
    transport_calls (snd run) = 1
    /\ inner (snd (fst run)) = i'
    /\ store (cache (snd (fst run))) = <[key_of req := snapshot resp]> (store (cache d))
    /\ tail (fst (fst run))
       = replicate n (Returns (Some (replay (snapshot resp) (rewound req))) None).
Proof.
  intros G D HD d req i' resp n Hr Hk Hd Hf Hs. cbv zeta.
  set (c1 := mkMapCache (<[key_of req := snapshot resp]> (store (cache d)))).
  assert (Hhits : forall n,
             Do_all (replicate n req) (mkCachingDoer i' c1)
             = (replicate n (Returns (Some (replay (snapshot resp) (rewound req))) None),
                mkCachingDoer i' c1,
                replicate n (CallGet (lookup_url req) (key_of req)))).
  { assert (Hstep : cachingDoer_Do req (mkCachingDoer i' c1)
                    = (Returns (Some (replay (snapshot resp) (rewound req))) None,
                       mkCachingDoer i' c1,
                       [CallGet (lookup_url req) (key_of req)])).
    { apply (Do_hit (mkCachingDoer i' c1) req c1 (snapshot resp) Hr).
      apply mapCache_Get_present. cbn. apply lookup_insert_eq. }
    clear n. induction n as [|n IH]; [reflexivity|].
    cbn [replicate]. rewrite (Do_all_cons _ _ _ _ _ _ _ _ _ Hstep IH). reflexivity. }
  assert (Hfirst : cachingDoer_Do req d
                   = (Returns (Some (set_RespBody resp
                                       (bytes_NewReader (pending (RespBody resp))))) None,
                      mkCachingDoer i' c1,
                      [CallGet (lookup_url req) (key_of req); CallDo (rewound req);
                       CallSet (lookup_url req) (key_of req) (snapshot resp)])).
  { rewrite (Do_store d req (cache d) zeroCachedResponse i' resp Hr
               (mapCache_Get_absent _ _ _ Hk) Hd Hf Hs).
    reflexivity. }
  cbn [replicate]. rewrite (Do_all_cons _ _ _ _ _ _ _ _ _ Hfirst (Hhits n)).
  cbn [fst snd tail inner cache store c1].
  split; [|repeat split].
  cbn [app transport_calls]. f_equal.
  clear. induction n as [|n IH]; [reflexivity | exact IH].
Qed.

Lemma repeated_request_dispatches_once_witness :
  calls (inner (snd (fst
    (@Do_all plainStd fakeDoer mapCache _ _
       (replicate 5 (getRequest "/v1/affiliates/some-id"))
       (mkCachingDoer (mkFakeDoer 0) newMapCache))))) = 1.
Proof.
  assert (Hd : Do (mkFakeDoer 0) (rewound (getRequest "/v1/affiliates/some-id"))
               = (mkFakeDoer 1,
                  (Some (mkResponse 200 {[ "X-Test" := ["value"] ]}
                           (bytes_NewReader (bytes_of fakeBody))
                           (getRequest "/v1/affiliates/some-id")), None)))
    by reflexivity.
  destruct (repeated_request_dispatches_once plainStd fakeDoer _
              (mkCachingDoer (mkFakeDoer 0) newMapCache)
              (getRequest "/v1/affiliates/some-id") _ _
              4 I eq_refl Hd eq_refl eq_refl)
    as (_ & Hinner & _).
  rewrite Hinner. reflexivity.
Defined.

Lemma Index_is_Some_intro (a sub b : string) :
  exists i, strings_Index (a +:+ sub +:+ b) sub = Some i.
Proof.
  induction a as [|c a [i IH]].
  - exists 0. rewrite append_nil_l.
    destruct sub as [|x sub]; [destruct b; reflexivity|].
    unfold strings_Index. rewrite append_cons.
    change (strings_HasPrefix (String x (sub +:+ b)) (String x sub))
      with (strings_HasPrefix (String x sub +:+ b) (String x sub)).
    rewrite HasPrefix_app. reflexivity.
  - rewrite append_cons. cbn [strings_Index].
    destruct (strings_HasPrefix (String c (a +:+ sub +:+ b)) sub); [exists 0; reflexivity|].
    rewrite IH. exists (S i). reflexivity.
Qed.

Lemma Contains_intro (a sub b : string) :
  strings_Contains (a +:+ sub +:+ b) sub = true.
Proof.
  unfold strings_Contains. destruct (Index_is_Some_intro a sub b) as [i ->]. reflexivity.
Qed.

Lemma Index_Some_split (s sub : string) (i : nat) :
  strings_Index s sub = Some i ->
  s = str_take i s +:+ sub +:+ str_drop (i + String.length sub) s.
Proof.
  revert i. induction s as [|c s IH]; intros i.
  - cbn [strings_Index]. destruct (strings_HasPrefix EmptyString sub) eqn:Hp; [|discriminate].
    intros E. injection E as <-. apply HasPrefix_inv in Hp. exact Hp.
  - cbn [strings_Index]. destruct (strings_HasPrefix (String c s) sub) eqn:Hp.
    + intros E. injection E as <-. apply HasPrefix_inv in Hp. exact Hp.
    + destruct (strings_Index s sub) as [j|]; [|discriminate].
      intros E. injection E as <-.
      cbn [str_take Nat.add str_drop]. rewrite append_cons. f_equal. apply IH. reflexivity.
Qed.

Lemma Contains_iff (s sub : string) :
  strings_Contains s sub = true <-> exists a b, s = a +:+ sub +:+ b.
Proof.
  split.
  - unfold strings_Contains. destruct (strings_Index s sub) as [i|] eqn:Hi; [|discriminate].
    intros _. eexists. eexists. apply Index_Some_split, Hi.
  - intros (a & b & ->). apply Contains_intro.
Qed.

Lemma Contains_inside (pre s post sub : string) :
  strings_Contains s sub = true ->
  strings_Contains (pre +:+ s +:+ post) sub = true.
Proof.
  intros Hs. apply Contains_iff in Hs as (a & b & ->).
  apply Contains_iff. exists (pre +:+ a), (b +:+ post).
  rewrite !append_assoc. reflexivity.
Qed.

(** The query string of a URL appears as it is in the rendered URL. *)
Lemma URL_String_shows_RawQuery (u : URL) :
  str_nonempty (RawQuery u) = true ->
  exists pre post, URL_String u = pre +:+ RawQuery u +:+ post.
Proof.
  intros Hq. unfold URL_String. cbv zeta. rewrite Hq, orb_true_r.
  match goal with
  | |- context [(?head +:+ "?" +:+ RawQuery u)] => set (buf := head)
  end.
  destruct (str_nonempty (Fragment u)).
  - exists (buf +:+ "?"), ("#" +:+ URL_EscapedFragment u).
    rewrite !append_assoc. reflexivity.
  - exists (buf +:+ "?"), EmptyString.
    rewrite append_nil_r, !append_assoc. reflexivity.
Qed.

(** X14.  The route test looks at the whole rendered URL, not at the path
    alone: a request whose query string contains [/rateLimits] is never
    stored either, whatever its path and whatever the collaborators do. *)
Theorem rateLimits_in_query_is_never_stored :
  forall (G : GoStd) (D C : Type) (HD : HttpRequestDoer D) (HC : Cache C)
         (d : cachingDoer D C) (req : Request),
    strings_Contains (RawQuery (ReqURL req)) "/rateLimits" = true ->
    strings_Contains (URL_String (ReqURL req)) "/rateLimits" = true
    /\ forall url key resp,
         ~ In (CallSet url key resp) (snd (cachingDoer_Do req d)).
Proof.
  intros G D C HD HC d req Hq.
  assert (Hs : strings_Contains (URL_String (ReqURL req)) "/rateLimits" = true).
  { destruct (URL_String_shows_RawQuery (ReqURL req)) as (pre & post & ->).
    - destruct (RawQuery (ReqURL req)); [discriminate Hq | reflexivity].
    - apply Contains_inside, Hq. }
  split; [exact Hs|].
  intros url key resp Hin.
  pose proof (Do_call_arguments d req _ Hin) as (_ & _ & Hno).
  rewrite Hs in Hno. discriminate Hno.
Qed.

Lemma rateLimits_in_query_is_never_stored_witness :
  store (cache (snd (fst
    (@cachingDoer_Do plainStd fakeDoer mapCache _ _
       (getRequestWithQuery "/v1/usr/00032112" "next=/rateLimits")
       (mkCachingDoer (mkFakeDoer 0) newMapCache))))) = ∅
  /\ strings_Contains
       (URL_String (ReqURL (getRequestWithQuery "/v1/usr/00032112" "next=/rateLimits")))
       "/rateLimits" = true.
Proof.
  destruct (rateLimits_in_query_is_never_stored plainStd fakeDoer mapCache _ _
              (mkCachingDoer (mkFakeDoer 0) newMapCache)
              (getRequestWithQuery "/v1/usr/00032112" "next=/rateLimits") eq_refl)
    as [Hs _].
  split; [vm_compute; reflexivity | exact Hs].
Defined.

(** ** [CheckRateLimits] *)

Lemma clients_built_app (a b : list LimitCall) :
  clients_built (a ++ b) = clients_built a ++ clients_built b.
Proof. unfold clients_built. apply flat_map_app. Qed.

Lemma limit_requests_app (a b : list LimitCall) :
  limit_requests (a ++ b) = limit_requests a + limit_requests b.
Proof.
  induction a as [|[] a IH]; cbn [app limit_requests]; rewrite ?IH; reflexivity.
Qed.

Section RateLimitsFacts.
Context {Ctx U W CW : Type}.
Variable NewClientWithResponses : string -> list (ClientOption Ctx U) -> CW + error.
Variable GetV1RateLimitsWithResponse :
  CW -> Ctx -> W -> (GetV1RateLimitsResponse + error) * W.
Variable json_Unmarshal : list Byte.byte -> RateLimits + error.

(** What one run of [getLimit] comes to: a client is built exactly for a
    non-blank key, at most one request follows it, and limits come back
    exactly when the key is not blank and nothing failed. *)
Lemma getLimit_summary (ctx : Ctx) (key : string) (w : W) :
  exists limits err w' calls,
    getLimit NewClientWithResponses GetV1RateLimitsWithResponse json_Unmarshal ctx key w
    = (limits, err, w', calls)
    /\ clients_built calls = client_for key
    /\ limit_requests calls <= List.length (client_for key)
    /\ (err = None ->
        limit_requests calls = List.length (client_for key)
        /\ (limits = None <-> str_nonempty key = false))
    /\ (err <> None -> limits = None /\ str_nonempty key = true)
    /\ (str_nonempty key = false -> w' = w /\ calls = []).
Proof.
  unfold getLimit, client_for.
  destruct (str_nonempty key) eqn:Hk; cbn [negb]; cbv zeta.
  2: { do 4 eexists. split; [reflexivity|]. cbn.
       repeat split; try lia; try congruence; auto. }
  destruct (NewClientWithResponses _ _) as [cl | e].
  2: { do 4 eexists. split; [reflexivity|]. cbn.
       repeat split; try lia; try congruence. }
  destruct (GetV1RateLimitsWithResponse cl ctx w) as [[res | e] w'].
  2: { do 4 eexists. split; [reflexivity|]. cbn.
       repeat split; try lia; try congruence. }
  destruct (negb (LimitsStatusCode res =? StatusOK)%Z).
  { do 4 eexists. split; [reflexivity|]. cbn.
    repeat split; try lia; try congruence. }
  destruct (json_Unmarshal (LimitsBody res)) as [limits | e].
  - do 4 eexists. split; [reflexivity|]. cbn.
    repeat split; try lia; try congruence.
  - do 4 eexists. split; [reflexivity|]. cbn.
    repeat split; try lia; try congruence.
Qed.

End RateLimitsFacts.

(** Run [getLimit] on the next key and name what it comes to. *)
Ltac next_limit New Get Unm ctx key w :=
  let limits := fresh "limits" in
  let err := fresh "err" in
  let w' := fresh "w" in
  let calls := fresh "calls" in
  let Hrun := fresh "Hrun" in
  let Hbuilt := fresh "Hbuilt" in
  let Hle := fresh "Hle" in
  let Hok := fresh "Hok" in
  let Hko := fresh "Hko" in
  let Hblank := fresh "Hblank" in
  destruct (getLimit_summary New Get Unm ctx key w)
    as (limits & err & w' & calls & Hrun & Hbuilt & Hle & Hok & Hko & Hblank);
  rewrite Hrun; destruct err as [err|];
  [ destruct (Hko ltac:(discriminate)) as [? ?]
  | destruct (Hok eq_refl) as [? ?] ].

(** X15.  [CheckRateLimits] returns a response or an error, never both and
    never neither; and a response holds limits for exactly the keys that are
    not blank. *)
Theorem CheckRateLimits_response_xor_error :
  forall (Ctx U W CW : Type)
         (NewClientWithResponses : string -> list (ClientOption Ctx U) -> CW + error)
         (GetV1RateLimitsWithResponse :
            CW -> Ctx -> W -> (GetV1RateLimitsResponse + error) * W)
         (json_Unmarshal : list Byte.byte -> RateLimits + error)
         (ctx : Ctx) (keys : APIKeys) (w : W),
    let '(resp, err, _, _) :=
      CheckRateLimits NewClientWithResponses GetV1RateLimitsWithResponse
                      json_Unmarshal ctx keys w in
    (resp = None /\ err <> None)
    \/ (err = None
        /\ exists r, resp = Some r
             /\ (LimitsDataAnalytics r = None <-> str_nonempty (DataAnalytics keys) = false)
             /\ (LimitsPDFLegalEntities r = None
                 <-> str_nonempty (PDFLegalEntities keys) = false)
             /\ (LimitsPDFIndividuals r = None
                 <-> str_nonempty (PDFIndividuals keys) = false)
             /\ (LimitsAffiliates r = None <-> str_nonempty (Affiliates keys) = false)).
Proof.
  intros Ctx U W CW New Get Unm ctx keys w. unfold CheckRateLimits.
  next_limit New Get Unm ctx (DataAnalytics keys) w;
    [left; split; [reflexivity | discriminate]|].
  next_limit New Get Unm ctx (PDFLegalEntities keys) w0;
    [left; split; [reflexivity | discriminate]|].
  next_limit New Get Unm ctx (PDFIndividuals keys) w1;
    [left; split; [reflexivity | discriminate]|].
  next_limit New Get Unm ctx (Affiliates keys) w2;
    [left; split; [reflexivity | discriminate]|].
  right. split; [reflexivity|]. eexists. split; [reflexivity|].
  cbn. repeat split; tauto.
Qed.

(** X16.  [CheckRateLimits] goes through the keys in the order data and
    analytics, legal-entity PDF, individuals PDF, affiliates.  For a blank key
    it builds no client and sends nothing; for any other it builds one client,
    whose key set holds that key as the default credential and nothing else,
    and sends at most one request through it.  The clients built are always
    the first few of those the non-blank keys call for, and all of them, each
    with its one request, when no error is returned. *)
Theorem CheckRateLimits_call_discipline :
  forall (Ctx U W CW : Type)
         (NewClientWithResponses : string -> list (ClientOption Ctx U) -> CW + error)
         (GetV1RateLimitsWithResponse :
            CW -> Ctx -> W -> (GetV1RateLimitsResponse + error) * W)
         (json_Unmarshal : list Byte.byte -> RateLimits + error)
         (ctx : Ctx) (keys : APIKeys) (w : W),
    let '(_, err, _, calls) :=
      CheckRateLimits NewClientWithResponses GetV1RateLimitsWithResponse
                      json_Unmarshal ctx keys w in
    (exists later, flat_map client_for (limit_keys keys) = clients_built calls ++ later)
    /\ limit_requests calls <= List.length (clients_built calls)
    /\ (err = None ->
        clients_built calls = flat_map client_for (limit_keys keys)
        /\ limit_requests calls = List.length (clients_built calls)).
Proof.
  intros Ctx U W CW New Get Unm ctx keys w. unfold CheckRateLimits.
  cbn [limit_keys flat_map]. rewrite app_nil_r.
  next_limit New Get Unm ctx (DataAnalytics keys) w.
  { rewrite Hbuilt. split; [eexists; reflexivity|]. split; [exact Hle | discriminate]. }
  next_limit New Get Unm ctx (PDFLegalEntities keys) w0.
  { rewrite clients_built_app, limit_requests_app, length_app, Hbuilt, Hbuilt0.
    split; [exists (client_for (PDFIndividuals keys) ++ client_for (Affiliates keys));
            rewrite <- ?app_assoc; reflexivity|].
    split; [lia | discriminate]. }
  next_limit New Get Unm ctx (PDFIndividuals keys) w1.
  { rewrite !clients_built_app, !limit_requests_app, !length_app, Hbuilt, Hbuilt0, Hbuilt1.
    split; [exists (client_for (Affiliates keys)); rewrite <- ?app_assoc; reflexivity|].
    split; [lia | discriminate]. }
  next_limit New Get Unm ctx (Affiliates keys) w2.
  { rewrite !clients_built_app, !limit_requests_app, !length_app,
      Hbuilt, Hbuilt0, Hbuilt1, Hbuilt2.
    split; [exists []; rewrite app_nil_r, <- ?app_assoc; reflexivity|].
    split; [lia | discriminate]. }
  rewrite !clients_built_app, !limit_requests_app, !length_app,
    Hbuilt, Hbuilt0, Hbuilt1, Hbuilt2.
  split; [exists []; rewrite app_nil_r, <- ?app_assoc; reflexivity|].
  split; [lia|]. intros _. split; [rewrite <- ?app_assoc; reflexivity | lia].
Qed.

(** X17.  An answer with a status other than 200 for the first key fails the
    whole check: the error names the key and the status in decimal, the body
    is not parsed, and no client is built for any of the other keys. *)
Theorem CheckRateLimits_bad_status_aborts :
  forall (Ctx U W CW : Type)
         (NewClientWithResponses : string -> list (ClientOption Ctx U) -> CW + error)
         (GetV1RateLimitsWithResponse :
            CW -> Ctx -> W -> (GetV1RateLimitsResponse + error) * W)
         (json_Unmarshal : list Byte.byte -> RateLimits + error)
         (ctx : Ctx) (keys : APIKeys) (w w' : W) (cl : CW)
         (res : GetV1RateLimitsResponse),
    let first := mkAPIKeys (DataAnalytics keys) EmptyString EmptyString EmptyString in
    str_nonempty (DataAnalytics keys) = true ->
    NewClientWithResponses ServerURL [WithAPIKeys first] = inl cl ->
    GetV1RateLimitsWithResponse cl ctx w = (inl res, w') ->
    LimitsStatusCode res <> 200%Z ->
    CheckRateLimits NewClientWithResponses GetV1RateLimitsWithResponse
                    json_Unmarshal ctx keys w
    = (None,
       Some ("get data analytics key limit: bad status: "
             +:+ itoa (LimitsStatusCode res)),
       w', [CallNewClient first; CallGetV1RateLimits]).
Proof.
  intros Ctx U W CW New Get Unm ctx keys w w' cl res first Hk Hnew Hget Hstatus.
  unfold CheckRateLimits, getLimit. rewrite Hk. cbn [negb]. cbv zeta.
  fold first. rewrite Hnew, Hget.
  destruct (LimitsStatusCode res =? StatusOK)%Z eqn:E.
  - apply Z.eqb_eq in E. exfalso. apply Hstatus. exact E.
  - reflexivity.
Qed.

Lemma CheckRateLimits_bad_status_aborts_witness :
  CheckRateLimits fakeNewClient fakeGetV1RateLimits fakeUnmarshal tt
    (mkAPIKeys "expired" "pdf-legal-key" EmptyString "aff-key") []
  = (None, Some "get data analytics key limit: bad status: 429",
     ["bearer expired"],
     [CallNewClient (mkAPIKeys "expired" EmptyString EmptyString EmptyString);
      CallGetV1RateLimits]).
Proof.
  rewrite (CheckRateLimits_bad_status_aborts unit unit (list string) (list string)
             fakeNewClient fakeGetV1RateLimits fakeUnmarshal tt
             (mkAPIKeys "expired" "pdf-legal-key" EmptyString "aff-key")
             [] ["bearer expired"] ["bearer expired"]
             (mkGetV1RateLimitsResponse 429%Z [])).
  - reflexivity.
  - reflexivity.
  - reflexivity.
  - reflexivity.
  - intros E. discriminate E.
Defined.

(** A run with one blank key: three clients, three requests, each sent with
    its own key as the bearer credential. *)
Example CheckRateLimits_run :
  CheckRateLimits fakeNewClient fakeGetV1RateLimits fakeUnmarshal tt
    (mkAPIKeys "da-key" "pdf-legal-key" EmptyString "aff-key") []
  = (Some (mkRateLimitsResponse
             (Some (mkRateLimits 0%Z [] 990%Z 1000%Z)) (Some (mkRateLimits 0%Z [] 990%Z 1000%Z))
             None (Some (mkRateLimits 0%Z [] 990%Z 1000%Z))),
     None,
     ["bearer da-key"; "bearer pdf-legal-key"; "bearer aff-key"],
     [CallNewClient (mkAPIKeys "da-key" EmptyString EmptyString EmptyString);
      CallGetV1RateLimits;
      CallNewClient (mkAPIKeys "pdf-legal-key" EmptyString EmptyString EmptyString);
      CallGetV1RateLimits;
      CallNewClient (mkAPIKeys "aff-key" EmptyString EmptyString EmptyString);
      CallGetV1RateLimits]).
Proof. vm_compute. reflexivity. Qed.

(** ** The file-backed caches of the example programs *)

Lemma last_saved_snoc (initial m : entryMap) (saves : list entryMap) :
  last_saved initial (saves ++ [m]) = m.
Proof. unfold last_saved. apply last_last. Qed.

(** X18.  Storing and looking up in [jsonCache] round-trip within the
    time to live and not beyond: after a 200 response is stored in a cache
    with a map, a lookup of its key made [d] nanoseconds later returns that
    response when [d] is at most seven days (the URL given does not matter),
    and when [d] is more it misses, removes the entry and saves the map
    without it. *)
Theorem jsonCache_Get_after_Set :
  forall (c : JSONCache.jsonCache) (m : gmap string cacheEntry)
         (url url' key : string) (resp : CachedResponse) (d : Time),
    JSONCache.entries c = Some m ->
    CachedStatusCode resp = 200%Z ->
    exists c1,
      JSONCache.Set_ c url key resp = Some c1
      /\ JSONCache.entries c1
         = Some (<[key := mkCacheEntry url key (JSONCache.clock c) resp]> m)
      /\ ((d <= cacheTTL)%Z ->
            snd (JSONCache.Get (JSONCache.elapse d c1) url' key) = (resp, true)
            /\ JSONCache.entries (fst (JSONCache.Get (JSONCache.elapse d c1) url' key))
               = JSONCache.entries c1)
      /\ ((cacheTTL < d)%Z ->
            snd (JSONCache.Get (JSONCache.elapse d c1) url' key)
              = (zeroCachedResponse, false)
            /\ JSONCache.entries (fst (JSONCache.Get (JSONCache.elapse d c1) url' key))
               = Some (delete key m)
            /\ last_saved None
                 (JSONCache.saved (fst (JSONCache.Get (JSONCache.elapse d c1) url' key)))
               = Some (delete key m)).
Proof.
  intros c m url url' key resp d Hm H200.
  unfold JSONCache.Set_. rewrite H200, Hm. cbn [Z.eqb Pos.eqb negb]. cbv zeta.
  eexists. split; [reflexivity|]. split; [reflexivity|].
  unfold JSONCache.Get, JSONCache.elapse, JSONCache.save, JSONCache.set_entries.
  cbn [JSONCache.entries JSONCache.clock JSONCache.printed JSONCache.saved entry_lookup].
  rewrite lookup_insert_eq. cbn [Timestamp EntryResponse].
  replace (JSONCache.clock c + d - JSONCache.clock c)%Z with d by lia.
  split.
  - intros Hle. apply Z.ltb_ge in Hle. rewrite Hle. split; reflexivity.
  - intros Hgt. apply Z.ltb_lt in Hgt. rewrite Hgt. cbv zeta.
    cbn [fst snd JSONCache.entries JSONCache.saved JSONCache.Println JSONCache.save
         JSONCache.set_entries JSONCache.clock JSONCache.printed entry_delete].
    rewrite delete_insert_eq, last_saved_snoc. repeat split.
Qed.

Lemma jsonCache_Get_after_Set_witness :
  exists c1,
    JSONCache.Set_
      (JSONCache.newJSONCache (inr "no such file") (fun _ => inr "unused") 1000%Z)
      "https://api.youscore.com.ua/v1/usr/1" "k1" (mkCachedResponse 200 ∅ [])
    = Some c1
    /\ snd (JSONCache.Get (JSONCache.elapse cacheTTL c1) "https://elsewhere" "k1")
       = (mkCachedResponse 200 ∅ [], true)
    /\ snd (JSONCache.Get (JSONCache.elapse (cacheTTL + 1)%Z c1) "https://elsewhere" "k1")
       = (zeroCachedResponse, false).
Proof.
  destruct (jsonCache_Get_after_Set
              (JSONCache.newJSONCache (inr "no such file") (fun _ => inr "unused") 1000%Z)
              ∅ "https://api.youscore.com.ua/v1/usr/1" "https://elsewhere" "k1"
              (mkCachedResponse 200 ∅ []) cacheTTL eq_refl eq_refl)
    as (c1 & Hset & _ & Hfresh & _).
  destruct (jsonCache_Get_after_Set
              (JSONCache.newJSONCache (inr "no such file") (fun _ => inr "unused") 1000%Z)
              ∅ "https://api.youscore.com.ua/v1/usr/1" "https://elsewhere" "k1"
              (mkCachedResponse 200 ∅ []) (cacheTTL + 1)%Z eq_refl eq_refl)
    as (c2 & Hset2 & _ & _ & Hstale).
  exists c1. split; [exact Hset|]. split.
  - apply Hfresh. apply Z.le_refl.
  - rewrite Hset in Hset2. injection Hset2 as <-. apply Hstale. apply Z.lt_succ_diag_r.
Defined.

(** X19.  [jsonCache] never serves an entry older than the time to live, and
    a miss leaves nothing under the key: a hit returns the response of the
    entry the map holds under the key, whose age is at most seven days, and
    leaves the map as it is; after a miss no entry is under the key, an
    expired one having been removed, so the next lookup misses as well. *)
Theorem jsonCache_Get_is_fresh_or_gone :
  forall (c c' : JSONCache.jsonCache) (url key : string)
         (r : CachedResponse) (ok : bool),
    JSONCache.Get c url key = (c', (r, ok)) ->
    (ok = true ->
       exists entry,
         entry_lookup (JSONCache.entries c) key = Some entry
         /\ r = EntryResponse entry
         /\ (JSONCache.clock c - Timestamp entry <= cacheTTL)%Z
         /\ JSONCache.entries c' = JSONCache.entries c)
    /\ (ok = false ->
         r = zeroCachedResponse
         /\ entry_lookup (JSONCache.entries c') key = None
         /\ forall url', snd (JSONCache.Get c' url' key) = (zeroCachedResponse, false)).
Proof.
  intros c c' url key r ok. unfold JSONCache.Get.
  destruct (entry_lookup (JSONCache.entries c) key) as [entry|] eqn:Hl.
  - destruct (cacheTTL <? JSONCache.clock c - Timestamp entry)%Z eqn:Hage;
      cbv zeta; intros E; injection E as <- <- <-.
    + split; [intros Hok; discriminate Hok|]. intros _.
      assert (Hgone : entry_lookup (entry_delete (JSONCache.entries c) key) key = None).
      { destruct (JSONCache.entries c) as [m|]; [|reflexivity].
        cbn. apply lookup_delete_eq. }
      split; [reflexivity|]. split; [exact Hgone|].
      intros url'. unfold JSONCache.Get.
      cbn [JSONCache.entries JSONCache.save JSONCache.set_entries JSONCache.Println].
      rewrite Hgone. reflexivity.
    + split; [|intros Hok; discriminate Hok]. intros _.
      exists entry. apply Z.ltb_ge in Hage. repeat split; [exact Hage].
  - intros E; injection E as <- <- <-.
    split; [intros Hok; discriminate Hok|]. intros _.
    split; [reflexivity|]. split; [exact Hl|].
    intros url'. unfold JSONCache.Get.
    cbn [JSONCache.entries JSONCache.Println]. rewrite Hl. reflexivity.
Qed.

Lemma jsonCache_Get_is_fresh_or_gone_witness :
  entry_lookup
    (JSONCache.entries
       (fst (JSONCache.Get (agedCache "k1" (mkCachedResponse 200 ∅ []) (cacheTTL + 1)%Z)
               "https://api.youscore.com.ua/v1/usr/1" "k1")))
    "k1" = None.
Proof.
  refine (let H := jsonCache_Get_is_fresh_or_gone
                     (agedCache "k1" (mkCachedResponse 200 ∅ []) (cacheTTL + 1)%Z) _
                     "https://api.youscore.com.ua/v1/usr/1" "k1" _ false _ in _).
  Unshelve.
  4: { vm_compute. reflexivity. }
  destruct H as [_ Hmiss]. destruct (Hmiss eq_refl) as (_ & Hgone & _).
  exact Hgone.
Defined.

Lemma jsonCache_step_keeps_map (c : JSONCache.jsonCache) (op : cacheOp) :
  JSONCache.entries c <> None ->
  exists c', jsonCache_step c op = Some c' /\ JSONCache.entries c' <> None.
Proof.
  intros Hm. destruct op as [url key|url key resp|d]; cbn [jsonCache_step].
  - eexists. split; [reflexivity|]. unfold JSONCache.Get.
    destruct (entry_lookup (JSONCache.entries c) key) as [entry|]; [|exact Hm].
    destruct (cacheTTL <? JSONCache.clock c - Timestamp entry)%Z; [|exact Hm].
    cbn. destruct (JSONCache.entries c); [discriminate | contradiction].
  - unfold JSONCache.Set_.
    destruct (negb (CachedStatusCode resp =? 200)%Z); [eauto|].
    destruct (JSONCache.entries c) as [m|] eqn:E; [|contradiction].
    eexists. split; [reflexivity|]. discriminate.
  - eexists. split; [reflexivity|]. exact Hm.
Qed.

(** X20.  A store into a [jsonCache] panics only when the cache file held
    what unmarshals, without an error, to a nil map.  The map of a new cache
    is nil exactly in that case; otherwise no sequence of lookups, stores and
    waits panics or makes the map nil; and with the nil map every lookup
    misses, a store of a 200 response panics, and a store of any other
    response does nothing. *)
Theorem jsonCache_panics_only_on_nil_file_map :
  forall (file : list Byte.byte + error)
         (unmarshal : list Byte.byte -> entryMap + error) (now : Time),
    let c := JSONCache.newJSONCache file unmarshal now in
    (JSONCache.entries c = None
       <-> exists data, file = inl data /\ unmarshal data = inl None)
    /\ (JSONCache.entries c <> None ->
          forall ops, exists c',
            jsonCache_run ops c = Some c' /\ JSONCache.entries c' <> None)
    /\ (JSONCache.entries c = None ->
          forall url key resp,
            snd (JSONCache.Get c url key) = (zeroCachedResponse, false)
            /\ (CachedStatusCode resp = 200%Z -> JSONCache.Set_ c url key resp = None)
            /\ (CachedStatusCode resp <> 200%Z -> JSONCache.Set_ c url key resp = Some c)).
Proof.
  intros file unmarshal now c. split; [|split].
  - unfold c, JSONCache.newJSONCache, load_entries. cbn [JSONCache.entries]. split.
    + destruct file as [data|e]; [|discriminate].
      destruct (unmarshal data) as [m|e] eqn:Hu; [|discriminate].
      intros ->. exists data. split; [reflexivity | exact Hu].
    + intros (data & -> & ->). reflexivity.
  - generalize c. clear. intros c Hm ops. revert c Hm.
    induction ops as [|op ops IH]; intros c Hm.
    + exists c. split; [reflexivity | exact Hm].
    + destruct (jsonCache_step_keeps_map c op Hm) as (c1 & Hs & Hm1).
      cbn [jsonCache_run]. rewrite Hs. apply IH, Hm1.
  - intros Hnil url key resp. split; [|split].
    + unfold JSONCache.Get. rewrite Hnil. reflexivity.
    + intros H200. unfold JSONCache.Set_. rewrite H200, Hnil. reflexivity.
    + intros Hne. unfold JSONCache.Set_.
      apply Z.eqb_neq in Hne. rewrite Hne. reflexivity.
Qed.

Example jsonCache_null_file_panics :
  JSONCache.Set_ (JSONCache.newJSONCache nullFile unmarshal_null 0%Z)
    "https://api.youscore.com.ua/v1/usr/1" "k1" (mkCachedResponse 200 ∅ [])
  = None.
Proof. reflexivity. Qed.

Lemma jsonCache_step_saved (c c' : JSONCache.jsonCache) (op : cacheOp) (init : entryMap) :
  last_saved init (JSONCache.saved c) = JSONCache.entries c ->
  jsonCache_step c op = Some c' ->
  last_saved init (JSONCache.saved c') = JSONCache.entries c'.
Proof.
  intros Hinv. destruct op as [url key|url key resp|d]; cbn [jsonCache_step].
  - intros E. injection E as <-. unfold JSONCache.Get.
    destruct (entry_lookup (JSONCache.entries c) key) as [entry|]; [|exact Hinv].
    destruct (cacheTTL <? JSONCache.clock c - Timestamp entry)%Z; [|exact Hinv].
    cbn. apply last_saved_snoc.
  - unfold JSONCache.Set_.
    destruct (negb (CachedStatusCode resp =? 200)%Z).
    + intros E. injection E as <-. exact Hinv.
    + destruct (JSONCache.entries c) as [m|]; [|discriminate].
      intros E. injection E as <-. cbn. apply last_saved_snoc.
  - intros E. injection E as <-. exact Hinv.
Qed.

(** X21.  [jsonCache] writes through: if the map a cache holds is the one
    last handed to [save] (or, with nothing saved yet, the map [init] that
    was loaded), then the same is true after any sequence of lookups, stores
    and waits that does not panic.  An expired entry removed by a lookup is
    saved as much as a store is. *)
Theorem jsonCache_saves_every_change :
  forall (ops : list cacheOp) (c c' : JSONCache.jsonCache) (init : entryMap),
    last_saved init (JSONCache.saved c) = JSONCache.entries c ->
    jsonCache_run ops c = Some c' ->
    last_saved init (JSONCache.saved c') = JSONCache.entries c'.
Proof.
  induction ops as [|op ops IH]; intros c c' init Hinv Hrun.
  - injection Hrun as <-. exact Hinv.
  - cbn [jsonCache_run] in Hrun.
    destruct (jsonCache_step c op) as [c1|] eqn:Hs; [|discriminate].
    apply (IH c1 c' init); [|exact Hrun].
    apply (jsonCache_step_saved c c1 op init Hinv Hs).
Qed.

Lemma jsonCache_saves_every_change_witness :
  exists c',
    jsonCache_run
      [ OpSet "https://api.youscore.com.ua/v1/usr/1" "k1" (mkCachedResponse 200 ∅ []);
        OpSet "https://api.youscore.com.ua/v1/usr/2" "k2" (mkCachedResponse 404 ∅ []);
        OpElapse (cacheTTL + 1)%Z;
        OpGet "https://api.youscore.com.ua/v1/usr/1" "k1" ]
      (JSONCache.newJSONCache (inr "no such file") (fun _ => inr "unused") 0%Z)
    = Some c'
    /\ JSONCache.entries c' = Some ∅
    /\ last_saved (Some ∅) (JSONCache.saved c') = JSONCache.entries c'.
Proof.
  eexists. split; [vm_compute; reflexivity|]. split; [vm_compute; reflexivity|].
  apply (jsonCache_saves_every_change
           [ OpSet "https://api.youscore.com.ua/v1/usr/1" "k1" (mkCachedResponse 200 ∅ []);
             OpSet "https://api.youscore.com.ua/v1/usr/2" "k2" (mkCachedResponse 404 ∅ []);
             OpElapse (cacheTTL + 1)%Z;
             OpGet "https://api.youscore.com.ua/v1/usr/1" "k1" ]
           (JSONCache.newJSONCache (inr "no such file") (fun _ => inr "unused") 0%Z)).
  - reflexivity.
  - vm_compute. reflexivity.
Defined.

Lemma jsonCache_step_provenance (c c1 : JSONCache.jsonCache) (op : cacheOp)
    (key : string) (e : cacheEntry) :
  jsonCache_step c op = Some c1 ->
  entry_lookup (JSONCache.entries c1) key = Some e ->
  entry_lookup (JSONCache.entries c) key = Some e
  \/ exists url, op = OpSet url key (EntryResponse e)
                 /\ CachedStatusCode (EntryResponse e) = 200%Z.
Proof.
  destruct op as [url k|url k resp|d]; cbn [jsonCache_step].
  - intros E. injection E as <-. unfold JSONCache.Get.
    destruct (entry_lookup (JSONCache.entries c) k) as [entry|]; [|left; assumption].
    destruct (cacheTTL <? JSONCache.clock c - Timestamp entry)%Z; [|left; assumption].
    cbn. destruct (JSONCache.entries c) as [m|]; [|discriminate].
    cbn. intros Hl. apply lookup_delete_Some in Hl. left. apply Hl.
  - unfold JSONCache.Set_.
    destruct (CachedStatusCode resp =? 200)%Z eqn:Hst; cbn [negb].
    + destruct (JSONCache.entries c) as [m|]; [|discriminate].
      intros E. injection E as <-. cbn. intros Hl.
      apply lookup_insert_Some in Hl. destruct Hl as [[<- <-]|[_ Hl]].
      * right. exists url. cbn. split; [reflexivity|]. apply Z.eqb_eq, Hst.
      * left. exact Hl.
    + intros E. injection E as <-. left. assumption.
  - intros E. injection E as <-. left. assumption.
Qed.

(** X22.  What [jsonCache] answers a lookup with was stored under that very
    key: after any sequence of lookups, stores and waits, a hit for [key]
    returns either the response of the entry the map held under [key] at the
    start, or a response with status 200 that one of the stores of the
    sequence was given for [key].  A cache that starts empty therefore never
    returns a response for another key, nor one whose status is not 200. *)
Theorem jsonCache_hit_provenance :
  forall (ops : list cacheOp) (c c' c'' : JSONCache.jsonCache)
         (url key : string) (r : CachedResponse),
    jsonCache_run ops c = Some c' ->
    JSONCache.Get c' url key = (c'', (r, true)) ->
    (exists e, entry_lookup (JSONCache.entries c) key = Some e /\ r = EntryResponse e)
    \/ (exists url0, In (OpSet url0 key r) ops /\ CachedStatusCode r = 200%Z).
Proof.
  intros ops c c' c'' url key r Hrun Hget.
  assert (Hentry : exists e, entry_lookup (JSONCache.entries c') key = Some e
                             /\ r = EntryResponse e).
  { unfold JSONCache.Get in Hget.
    destruct (entry_lookup (JSONCache.entries c') key) as [entry|]; [|discriminate].
    destruct (cacheTTL <? JSONCache.clock c' - Timestamp entry)%Z; [discriminate|].
    injection Hget as _ <-. exists entry. split; reflexivity. }
  destruct Hentry as (e & Hl & ->). clear Hget c'' url.
  revert c Hrun. induction ops as [|op ops IH]; intros c Hrun.
  - injection Hrun as <-. left. exists e. split; [exact Hl | reflexivity].
  - cbn [jsonCache_run] in Hrun.
    destruct (jsonCache_step c op) as [c1|] eqn:Hs; [|discriminate].
    destruct (IH c1 Hrun) as [(e' & Hl1 & He)|(url0 & Hin & H200)].
    + destruct (jsonCache_step_provenance c c1 op key e' Hs Hl1)
        as [Hc|(url0 & -> & H200)].
      * left. exists e'. split; assumption.
      * right. exists url0. rewrite He. split; [left; reflexivity | exact H200].
    + right. exists url0. split; [right; exact Hin | exact H200].
Qed.

Lemma jsonCache_hit_provenance_witness :
  exists url0,
  In (OpSet url0 "k1" (mkCachedResponse 200 ∅ (bytes_of "one")))
     [ OpSet "https://api.youscore.com.ua/v1/usr/1" "k1"
         (mkCachedResponse 200 ∅ (bytes_of "one"));
       OpSet "https://api.youscore.com.ua/v1/usr/1" "k1"
         (mkCachedResponse 500 ∅ (bytes_of "two"));
       OpElapse cacheTTL ]
  /\ CachedStatusCode (mkCachedResponse 200 ∅ (bytes_of "one")) = 200%Z.
Proof.
  destruct (jsonCache_hit_provenance
              [ OpSet "https://api.youscore.com.ua/v1/usr/1" "k1"
                  (mkCachedResponse 200 ∅ (bytes_of "one"));
                OpSet "https://api.youscore.com.ua/v1/usr/1" "k1"
                  (mkCachedResponse 500 ∅ (bytes_of "two"));
                OpElapse cacheTTL ]
              (JSONCache.newJSONCache (inr "no such file") (fun _ => inr "unused") 0%Z)
              _ _ "https://api.youscore.com.ua/v1/usr/1" "k1"
              (mkCachedResponse 200 ∅ (bytes_of "one"))
              eq_refl eq_refl)
    as [(e & Hl & _)|(url0 & Hin & H200)].
  - discriminate Hl.
  - exists url0. split; [exact Hin | exact H200].
Defined.

(** ** The decorator over the file-backed caches *)

Section DecoratorMiss.
Context `{GoStd} {D C : Type} `{HttpRequestDoer D} `{Cache C}.

(** After a miss the transport is called, once, whatever it answers. *)
Lemma Do_miss_dispatches (d : cachingDoer D C) (req : Request) c' cached :
  readable req ->
  Cache_Get (cache d) (lookup_url req) (key_of req) = (c', (cached, false)) ->
  transport_calls (snd (cachingDoer_Do req d)) = 1.
Proof.
  intros Hr Hg.
  destruct (Do (inner d) (rewound req)) as [i' [[resp|] [e|]]] eqn:Hd.
  - rewrite (Do_transport_error _ _ _ _ _ _ _ Hr Hg Hd). reflexivity.
  - destruct (fault (RespBody resp)) as [e|] eqn:Hf.
    + rewrite (Do_response_unreadable _ _ _ _ _ _ _ Hr Hg Hd Hf). reflexivity.
    + destruct (strings_Contains (URL_String (ReqURL req)) "/rateLimits") eqn:Hs.
      * rewrite (Do_skip _ _ _ _ _ _ Hr Hg Hd Hf Hs). reflexivity.
      * rewrite (Do_store _ _ _ _ _ _ Hr Hg Hd Hf Hs). reflexivity.
  - rewrite (Do_transport_error _ _ _ _ _ _ _ Hr Hg Hd). reflexivity.
  - rewrite (Do_nil_response _ _ _ _ _ Hr Hg Hd). reflexivity.
Qed.

End DecoratorMiss.

Lemma jsonCache_Cache_Get_absent (c : JSONCache.jsonCache) (url key : string) :
  entry_lookup (JSONCache.entries c) key = None ->
  Cache_Get c url key = (JSONCache.Println c "cache miss:" key, (zeroCachedResponse, false)).
Proof. intros Hl. cbn. unfold JSONCache.Get. rewrite Hl. reflexivity. Qed.

(** X23.  Under the decorator, [jsonCache] replays 200 responses for seven
    days and nothing else.  When a request misses a cache with a map and the
    transport answers it with a readable response on a stored route, the
    same request sent [t] nanoseconds later is answered without the
    transport, with the status, header and body of that response, if the
    status was 200 and [t] is at most the time to live; if the status was
    anything else, or [t] is more, the transport is called again. *)
Theorem jsonCache_decorator_replays_only_200 :
  forall (G : GoStd) (D : Type) (HD : HttpRequestDoer D)
         (d : cachingDoer D JSONCache.jsonCache) (m : gmap string cacheEntry)
         (req : Request) i' (resp : Response) (t : Time),
    readable req ->
    JSONCache.entries (cache d) = Some m ->
    m !! key_of req = None ->
    Do (inner d) (rewound req) = (i', (Some resp, None)) ->
    fault (RespBody resp) = None ->
    strings_Contains (URL_String (ReqURL req)) "/rateLimits" = false ->
    let first := cachingDoer_Do req d in
    let d1 := snd (fst first) in
    let later :=
      cachingDoer_Do req (mkCachingDoer (inner d1) (JSONCache.elapse t (cache d1))) in
    transport_calls (snd first) = 1
    /\ (StatusCode resp = 200%Z -> (t <= cacheTTL)%Z ->
          fst (fst later) = Returns (Some (replay (snapshot resp) (rewound req))) None
          /\ transport_calls (snd later) = 0)
    /\ (StatusCode resp <> 200%Z \/ (cacheTTL < t)%Z ->
          transport_calls (snd later) = 1).
Proof.
  intros G D HD d m req i' resp t Hr Hm Hk Hd Hf Hs. cbv zeta.
  assert (Hg : Cache_Get (cache d) (lookup_url req) (key_of req)
               = (JSONCache.Println (cache d) "cache miss:" (key_of req),
                  (zeroCachedResponse, false))).
  { apply jsonCache_Cache_Get_absent. rewrite Hm. exact Hk. }
  rewrite (Do_store d req _ _ i' resp Hr Hg Hd Hf Hs).
  cbn [fst snd inner cache]. split; [reflexivity|].
  set (c0 := JSONCache.Println (cache d) "cache miss:" (key_of req)).
  assert (Hm0 : JSONCache.entries c0 = Some m) by exact Hm.
  destruct (Z.eq_dec (StatusCode resp) 200%Z) as [H200|Hne].
  - (* the response was stored *)
    assert (Hset : Cache_Set c0 (lookup_url req) (key_of req) (snapshot resp)
                   = JSONCache.save
                       (JSONCache.set_entries c0
                          (Some (<[key_of req := mkCacheEntry (lookup_url req) (key_of req)
                                                   (JSONCache.clock c0) (snapshot resp)]> m)))).
    { cbn. unfold JSONCache.Set_. cbn [CachedStatusCode snapshot].
      rewrite H200, Hm0. reflexivity. }
    rewrite Hset. clear Hset.
    set (c1 := JSONCache.elapse t _).
    assert (Hl : entry_lookup (JSONCache.entries c1) (key_of req)
                 = Some (mkCacheEntry (lookup_url req) (key_of req)
                           (JSONCache.clock c0) (snapshot resp))).
    { cbn. apply lookup_insert_eq. }
    assert (Hage : (JSONCache.clock c1 - JSONCache.clock c0 = t)%Z).
    { cbn. lia. }
    split.
    + intros _ Hle.
      assert (Hhit : Cache_Get (cache (mkCachingDoer i' c1)) (lookup_url req) (key_of req)
                     = (JSONCache.Println c1 "cache hit:" (key_of req),
                        (snapshot resp, true))).
      { cbn [cache]. change (Cache_Get c1) with (JSONCache.Get c1).
        unfold JSONCache.Get. rewrite Hl. cbn [Timestamp EntryResponse].
        rewrite Hage. apply Z.ltb_ge in Hle. rewrite Hle. reflexivity. }
      rewrite (Do_hit _ req _ _ Hr Hhit). split; reflexivity.
    + intros [Hne|Hgt]; [contradiction|].
      assert (Hmiss : exists c2,
                 Cache_Get (cache (mkCachingDoer i' c1)) (lookup_url req) (key_of req)
                 = (c2, (zeroCachedResponse, false))).
      { cbn [cache]. change (Cache_Get c1) with (JSONCache.Get c1).
        unfold JSONCache.Get. rewrite Hl. cbn [Timestamp EntryResponse].
        rewrite Hage. apply Z.ltb_lt in Hgt. rewrite Hgt. eexists. reflexivity. }
      destruct Hmiss as (c2 & Hmiss).
      apply (Do_miss_dispatches _ req c2 zeroCachedResponse Hr Hmiss).
  - (* the response was skipped *)
    assert (Hset : Cache_Set c0 (lookup_url req) (key_of req) (snapshot resp) = c0).
    { cbn. unfold JSONCache.Set_. cbn [CachedStatusCode snapshot].
      apply Z.eqb_neq in Hne. rewrite Hne. reflexivity. }
    rewrite Hset. split; [intros H200; contradiction|]. intros _.
    apply (Do_miss_dispatches _ req
             (JSONCache.Println (JSONCache.elapse t c0) "cache miss:" (key_of req))
             zeroCachedResponse Hr).
    cbn [cache]. apply jsonCache_Cache_Get_absent.
    cbn. rewrite Hm. exact Hk.
Qed.

Lemma jsonCache_decorator_replays_only_200_witness :
  let d := @mkCachingDoer cannedDoer JSONCache.jsonCache (mkCannedDoer 404)
             (JSONCache.newJSONCache (inr "no such file") (fun _ => inr "unused") 0%Z) in
  let req := getRequest "/v1/usr/00032112" in
  let d1 := snd (fst (@cachingDoer_Do plainStd _ _ _ _ req d)) in
  transport_calls
    (snd (@cachingDoer_Do plainStd _ _ _ _ req
            (mkCachingDoer (inner d1) (JSONCache.elapse 0%Z (cache d1))))) = 1.
Proof.
  cbv zeta.
  assert (Hd : Do (mkCannedDoer 404) (rewound (getRequest "/v1/usr/00032112"))
               = (mkCannedDoer 404,
                  (Some (mkResponse 404 ∅ (bytes_NewReader [])
                           (getRequest "/v1/usr/00032112")), None)))
    by reflexivity.
  destruct (jsonCache_decorator_replays_only_200 plainStd cannedDoer _
              (mkCachingDoer (mkCannedDoer 404)
                 (JSONCache.newJSONCache (inr "no such file") (fun _ => inr "unused") 0%Z))
              ∅ (getRequest "/v1/usr/00032112") _ _ 0%Z
              I eq_refl (lookup_empty _) Hd eq_refl eq_refl)
    as (_ & _ & Hagain).
  apply Hagain. left. discriminate.
Defined.

Lemma dumbFileCache_Cache_Get_absent (c : DumbFileCache.dumbFileCache) (url key : string) :
  entry_lookup (DumbFileCache.entries c) key = None ->
  Cache_Get c url key
  = (DumbFileCache.Println c "cache miss:" key, (zeroCachedResponse, false)).
Proof. intros Hl. cbn. unfold DumbFileCache.Get. rewrite Hl. reflexivity. Qed.

(** X24.  Under the decorator, [dumbFileCache] replays every response but a
    202 for seven days, error statuses included.  When a request misses a
    cache with a map and the transport answers it with a readable response
    on a stored route, the same request sent [t] nanoseconds later is
    answered without the transport, with the status, header and body of that
    response, if the status was not 202 and [t] is at most the time to live;
    if the status was 202, or [t] is more, the transport is called again. *)
Theorem dumbFileCache_decorator_replays_all_but_202 :
  forall (G : GoStd) (D : Type) (HD : HttpRequestDoer D)
         (d : cachingDoer D DumbFileCache.dumbFileCache) (m : gmap string cacheEntry)
         (req : Request) i' (resp : Response) (t : Time),
    readable req ->
    DumbFileCache.entries (cache d) = Some m ->
    m !! key_of req = None ->
    Do (inner d) (rewound req) = (i', (Some resp, None)) ->
    fault (RespBody resp) = None ->
    strings_Contains (URL_String (ReqURL req)) "/rateLimits" = false ->
    let first := cachingDoer_Do req d in
    let d1 := snd (fst first) in
    let later :=
      cachingDoer_Do req (mkCachingDoer (inner d1) (DumbFileCache.elapse t (cache d1))) in
    transport_calls (snd first) = 1
    /\ (StatusCode resp <> 202%Z -> (t <= cacheTTL)%Z ->
          fst (fst later) = Returns (Some (replay (snapshot resp) (rewound req))) None
          /\ transport_calls (snd later) = 0)
    /\ (StatusCode resp = 202%Z \/ (cacheTTL < t)%Z ->
          transport_calls (snd later) = 1).
Proof.
  intros G D HD d m req i' resp t Hr Hm Hk Hd Hf Hs. cbv zeta.
  assert (Hg : Cache_Get (cache d) (lookup_url req) (key_of req)
               = (DumbFileCache.Println (cache d) "cache miss:" (key_of req),
                  (zeroCachedResponse, false))).
  { apply dumbFileCache_Cache_Get_absent. rewrite Hm. exact Hk. }
  rewrite (Do_store d req _ _ i' resp Hr Hg Hd Hf Hs).
  cbn [fst snd inner cache]. split; [reflexivity|].
  set (c0 := DumbFileCache.Println (cache d) "cache miss:" (key_of req)).
  assert (Hm0 : DumbFileCache.entries c0 = Some m) by exact Hm.
  destruct (Z.eq_dec (StatusCode resp) 202%Z) as [H202|Hne].
  - (* the response was skipped *)
    assert (Hset : Cache_Set c0 (lookup_url req) (key_of req) (snapshot resp) = c0).
    { cbn. unfold DumbFileCache.Set_. cbn [CachedStatusCode snapshot].
      rewrite H202. reflexivity. }
    rewrite Hset. split; [intros Hne; contradiction|]. intros _.
    apply (Do_miss_dispatches _ req
             (DumbFileCache.Println (DumbFileCache.elapse t c0) "cache miss:" (key_of req))
             zeroCachedResponse Hr).
    cbn [cache]. apply dumbFileCache_Cache_Get_absent.
    cbn. rewrite Hm. exact Hk.
  - (* the response was stored *)
    assert (Hset : Cache_Set c0 (lookup_url req) (key_of req) (snapshot resp)
                   = DumbFileCache.save
                       (DumbFileCache.set_entries c0
                          (Some (<[key_of req := mkCacheEntry (lookup_url req) (key_of req)
                                                   (DumbFileCache.clock c0) (snapshot resp)]> m)))).
    { cbn. unfold DumbFileCache.Set_. cbn [CachedStatusCode snapshot].
      apply Z.eqb_neq in Hne. rewrite Hne, Hm0. reflexivity. }
    rewrite Hset. clear Hset.
    set (c1 := DumbFileCache.elapse t _).
    assert (Hl : entry_lookup (DumbFileCache.entries c1) (key_of req)
                 = Some (mkCacheEntry (lookup_url req) (key_of req)
                           (DumbFileCache.clock c0) (snapshot resp))).
    { cbn. apply lookup_insert_eq. }
    assert (Hage : (DumbFileCache.clock c1 - DumbFileCache.clock c0 = t)%Z).
    { cbn. lia. }
    split.
    + intros _ Hle.
      assert (Hhit : Cache_Get (cache (mkCachingDoer i' c1)) (lookup_url req) (key_of req)
                     = (DumbFileCache.Println c1 "cache hit:" (key_of req),
                        (snapshot resp, true))).
      { cbn [cache]. change (Cache_Get c1) with (DumbFileCache.Get c1).
        unfold DumbFileCache.Get. rewrite Hl. cbn [Timestamp EntryResponse].
        rewrite Hage. apply Z.ltb_ge in Hle. rewrite Hle. reflexivity. }
      rewrite (Do_hit _ req _ _ Hr Hhit). split; reflexivity.
    + intros [H202|Hgt]; [contradiction|].
      assert (Hmiss : exists c2,
                 Cache_Get (cache (mkCachingDoer i' c1)) (lookup_url req) (key_of req)
                 = (c2, (zeroCachedResponse, false))).
      { cbn [cache]. change (Cache_Get c1) with (DumbFileCache.Get c1).
        unfold DumbFileCache.Get. rewrite Hl. cbn [Timestamp EntryResponse].
        rewrite Hage. apply Z.ltb_lt in Hgt. rewrite Hgt. eexists. reflexivity. }
      destruct Hmiss as (c2 & Hmiss).
      apply (Do_miss_dispatches _ req c2 zeroCachedResponse Hr Hmiss).
Qed.

Lemma dumbFileCache_decorator_replays_all_but_202_witness :
  let d := @mkCachingDoer cannedDoer DumbFileCache.dumbFileCache (mkCannedDoer 500)
             (DumbFileCache.newDumbFileCache (inr "no such file") (fun _ => inr "unused") 0%Z) in
  let req := getRequest "/v1/usr/00032112" in
  let d1 := snd (fst (@cachingDoer_Do plainStd _ _ _ _ req d)) in
  fst (fst (@cachingDoer_Do plainStd _ _ _ _ req
              (mkCachingDoer (inner d1) (DumbFileCache.elapse cacheTTL (cache d1)))))
  = Returns (Some (mkResponse 500 ∅ (bytes_NewReader []) req)) None.
Proof.
  cbv zeta.
  assert (Hd : Do (mkCannedDoer 500) (rewound (getRequest "/v1/usr/00032112"))
               = (mkCannedDoer 500,
                  (Some (mkResponse 500 ∅ (bytes_NewReader [])
                           (getRequest "/v1/usr/00032112")), None)))
    by reflexivity.
  destruct (dumbFileCache_decorator_replays_all_but_202 plainStd cannedDoer _
              (mkCachingDoer (mkCannedDoer 500)
                 (DumbFileCache.newDumbFileCache (inr "no such file")
                    (fun _ => inr "unused") 0%Z))
              ∅ (getRequest "/v1/usr/00032112") _ _ cacheTTL
              I eq_refl (lookup_empty _) Hd eq_refl eq_refl)
    as (_ & Hreplay & _).
  destruct (Hreplay ltac:(discriminate) (Z.le_refl _)) as [Hout _].
  rewrite Hout. reflexivity.
Defined.

(** ** The usage tracker of the example program *)

Lemma int_wrap_add (x y : Z) : int_wrap (int_wrap x + y) = int_wrap (x + y).
Proof.
  unfold int_wrap. f_equal.
  replace ((x + 2 ^ 63) mod 2 ^ 64 - 2 ^ 63 + y + 2 ^ 63)%Z
    with ((x + 2 ^ 63) mod 2 ^ 64 + y)%Z by lia.
  rewrite Zplus_mod_idemp_l. f_equal. lia.
Qed.

Lemma int_wrap_small (x : Z) : (0 <= x < 2 ^ 63)%Z -> int_wrap x = x.
Proof. intros Hx. unfold int_wrap. rewrite Z.mod_small; lia. Qed.

Lemma aPITypeForPath_cases (path : string) :
  aPITypeForPath path = "custom"
  \/ aPITypeForPath path = "analysis"
  \/ aPITypeForPath path = "data".
Proof.
  unfold aPITypeForPath.
  destruct (existsb _ customPrefixes); [left; reflexivity|].
  destruct (existsb _ analysisPrefixes); [right; left|right; right]; reflexivity.
Qed.

Lemma requests_of_type_cons (t : APIType) (req : Request) (reqs : list Request) :
  requests_of_type t (req :: reqs)
  = (if String.eqb (usage_type req) t then 1 else 0) + requests_of_type t reqs.
Proof.
  unfold requests_of_type. cbn [List.filter].
  destruct (String.eqb (usage_type req) t); reflexivity.
Qed.

Lemma requests_of_type_total (reqs : list Request) :
  requests_of_type "custom" reqs + requests_of_type "analysis" reqs
  + requests_of_type "data" reqs = length reqs
  /\ forall t, t <> "custom" -> t <> "analysis" -> t <> "data" ->
               requests_of_type t reqs = 0.
Proof.
  induction reqs as [|req reqs [IH1 IH2]]; [split; reflexivity|].
  split.
  - rewrite !requests_of_type_cons. cbn [length]. unfold usage_type at 1 2 3.
    destruct (aPITypeForPath_cases (usage_path req)) as [-> | [-> | ->]]; cbn; lia.
  - intros t H1 H2 H3. rewrite requests_of_type_cons, (IH2 t H1 H2 H3).
    destruct (String.eqb_spec (usage_type req) t) as [E|_]; [|reflexivity].
    exfalso. unfold usage_type in E.
    destruct (aPITypeForPath_cases (usage_path req)) as [E'|[E'|E']];
      rewrite E' in E; auto.
Qed.

Lemma track_requests_counts {Ctx : Type} (ctx : Ctx) (reqs : list Request) :
  forall (u : usage) (fn : Ctx -> APIType -> string -> option usage -> option usage),
    (forall t p u, fn ctx t p (Some u) = simpleUsageTracker ctx t p u) ->
    PerType u <> None ->
    exists u',
      track_requests fn ctx reqs (Some u) = Some u'
      /\ PerType u' <> None
      /\ Calls u'
         = Calls u ++ map (fun req => usage_type req +:+ ": " +:+ usage_path req) reqs
      /\ forall t, int_wrap (PerType_at u t) = PerType_at u t ->
           PerType_at u' t
           = int_wrap (PerType_at u t + Z.of_nat (requests_of_type t reqs)).
Proof.
  induction reqs as [|req reqs IH]; intros u fn Hfn Hm.
  - exists u. split; [reflexivity|]. split; [exact Hm|].
    split; [cbn; rewrite app_nil_r; reflexivity|].
    intros t Ht. cbn. rewrite Z.add_0_r. symmetry. exact Ht.
  - destruct (PerType u) as [m|] eqn:Em; [|contradiction].
    set (u1 := mkUsage
                 (Some (<[usage_type req := int_wrap (PerType_at u (usage_type req) + 1)]> m))
                 (Calls u ++ [usage_type req +:+ ": " +:+ usage_path req])).
    assert (Hstep : snd (usageTrackingEditor fn ctx req (Some u)) = Some u1).
    { unfold usageTrackingEditor. cbn [snd]. fold (usage_path req).
      fold (usage_type req). rewrite Hfn. unfold simpleUsageTracker.
      rewrite Em. reflexivity. }
    destruct (IH u1 fn Hfn ltac:(discriminate)) as (u' & Hrun & Hm' & Hcalls & Hcount).
    exists u'. split; [|split; [exact Hm'|split]].
    + unfold track_requests. cbn [foldl]. rewrite Hstep. exact Hrun.
    + rewrite Hcalls. cbn [Calls u1 map]. rewrite <- app_assoc. reflexivity.
    + intros t Ht.
      assert (Hat : PerType_at u1 t
                    = if String.eqb (usage_type req) t
                      then int_wrap (PerType_at u t + 1) else PerType_at u t).
      { unfold PerType_at at 1. cbn [PerType u1].
        destruct (String.eqb_spec (usage_type req) t) as [Heq|Hne].
        - rewrite Heq, lookup_insert_eq. reflexivity.
        - rewrite lookup_insert_ne by exact Hne.
          unfold PerType_at. rewrite Em. reflexivity. }
      rewrite Hcount.
      * rewrite Hat, requests_of_type_cons.
        destruct (String.eqb (usage_type req) t).
        -- rewrite int_wrap_add. f_equal. lia.
        -- f_equal.
      * rewrite Hat. destruct (String.eqb (usage_type req) t); [|exact Ht].
        pose proof (int_wrap_add (PerType_at u t + 1) 0) as Hi.
        rewrite !Z.add_0_r in Hi. exact Hi.
Qed.

(** X25.  The example's usage tracker, registered with [WithUsageTracking],
    counts every request once.  Whatever counters it is created on (their
    values being Go integers), tracking a list of requests does not panic;
    it appends one line per request, in order, made of the type, a colon
    and the path; and it raises the count of each type by the number of the
    requests of that type, in 64-bit arithmetic.  Starting from counters at
    zero, with fewer than 2^63 requests, the counts of [custom], [analysis]
    and [data] add up to the number of requests and no other type is
    counted. *)
Theorem usage_tracker_counts_every_request :
  forall (Ctx : Type) (ctx : Ctx) (u0 : usage) (reqs : list Request),
    (forall t, int_wrap (PerType_at u0 t) = PerType_at u0 t) ->
    exists u',
      track_requests (snd (newSimpleUsageTracker u0)) ctx reqs
        (Some (fst (@newSimpleUsageTracker Ctx u0))) = Some u'
      /\ Calls u'
         = Calls u0 ++ map (fun req => usage_type req +:+ ": " +:+ usage_path req) reqs
      /\ (forall t,
            PerType_at u' t
            = int_wrap (PerType_at u0 t + Z.of_nat (requests_of_type t reqs)))
      /\ ((forall t, PerType_at u0 t = 0%Z) ->
          (Z.of_nat (length reqs) < 2 ^ 63)%Z ->
            (PerType_at u' "custom" + PerType_at u' "analysis" + PerType_at u' "data"
             = Z.of_nat (length reqs))%Z
            /\ forall t, t <> "custom" -> t <> "analysis" -> t <> "data" ->
                         PerType_at u' t = 0%Z).
Proof.
  intros Ctx ctx u0 reqs Hints.
  set (u := fst (@newSimpleUsageTracker Ctx u0)).
  assert (Hu : PerType u <> None).
  { unfold u, newSimpleUsageTracker. cbn [fst].
    destruct (PerType u0) eqn:E; [rewrite E|]; discriminate. }
  assert (Hsame : forall t, PerType_at u t = PerType_at u0 t).
  { intros t. unfold u, newSimpleUsageTracker, PerType_at. cbn [fst].
    destruct (PerType u0) eqn:E; [rewrite E; reflexivity|]. reflexivity. }
  assert (Hcalls0 : Calls u = Calls u0).
  { unfold u, newSimpleUsageTracker. cbn [fst]. destruct (PerType u0); reflexivity. }
  destruct (track_requests_counts ctx reqs u (snd (newSimpleUsageTracker u0))
              ltac:(reflexivity) Hu) as (u' & Hrun & _ & Hcalls & Hcount).
  exists u'. split; [exact Hrun|]. split; [rewrite Hcalls, Hcalls0; reflexivity|].
  assert (Hall : forall t, PerType_at u' t
                   = int_wrap (PerType_at u0 t + Z.of_nat (requests_of_type t reqs))).
  { intros t. rewrite <- Hsame. apply Hcount. rewrite Hsame. apply Hints. }
  split; [exact Hall|].
  intros Hzero Hlen.
  destruct (requests_of_type_total reqs) as [Hsum Hother].
  split.
  - rewrite !Hall, !Hzero, !Z.add_0_l.
    rewrite !int_wrap_small by lia. lia.
  - intros t H1 H2 H3. rewrite Hall, Hzero, (Hother t H1 H2 H3). reflexivity.
Qed.

Lemma usage_tracker_counts_every_request_witness :
  exists u',
    track_requests (snd (newSimpleUsageTracker (mkUsage None []))) tt
      [getRequest "/v1/sanctions"; getRequest "/v1/usr/00032112";
       getRequest "/v1/affiliates/query"; getRequest "/v1/usr/00032113"]
      (Some (fst (@newSimpleUsageTracker unit (mkUsage None [])))) = Some u'
    /\ Calls u' = ["analysis: /v1/sanctions"; "data: /v1/usr/00032112";
                   "custom: /v1/affiliates/query"; "data: /v1/usr/00032113"]
    /\ PerType_at u' "data" = 2%Z.
Proof.
  destruct (usage_tracker_counts_every_request unit tt (mkUsage None [])
              [getRequest "/v1/sanctions"; getRequest "/v1/usr/00032112";
               getRequest "/v1/affiliates/query"; getRequest "/v1/usr/00032113"]
              (fun _ => eq_refl))
    as (u' & Hrun & Hcalls & Hcount & _).
  exists u'. split; [exact Hrun|]. split.
  - rewrite Hcalls. vm_compute. reflexivity.
  - rewrite Hcount. vm_compute. reflexivity.
Defined.

(** ** The translation tool: [orderedMap] *)

Lemma orderedMap_set_ok (o : OrderedMap.orderedMap) m (k : string) (v : list Byte.byte) :
  orderedMap_ok o m ->
  exists o',
    OrderedMap.set o k v = Some o'
    /\ orderedMap_ok o' (<[k := v]> m)
    /\ OrderedMap.keys o'
       = if decide (k ∈ OrderedMap.keys o) then OrderedMap.keys o
         else OrderedMap.keys o ++ [k].
Proof.
  intros [Hv Hk]. unfold OrderedMap.set, OrderedMap.has_key. rewrite Hv.
  eexists. split; [reflexivity|].
  assert (Hks : (if negb (bool_decide (is_Some (m !! k)))
                 then OrderedMap.keys o ++ [k] else OrderedMap.keys o)
                = if decide (k ∈ OrderedMap.keys o) then OrderedMap.keys o
                  else OrderedMap.keys o ++ [k]).
  { destruct (decide (k ∈ OrderedMap.keys o)) as [Hin|Hnin].
    - rewrite bool_decide_eq_true_2 by (apply Hk, Hin). reflexivity.
    - rewrite bool_decide_eq_false_2 by (intros Hs; apply Hnin, Hk, Hs). reflexivity. }
  split; [|exact Hks].
  split; [reflexivity|]. cbn [OrderedMap.keys]. rewrite Hks.
  intros k'. rewrite lookup_insert_is_Some.
  destruct (decide (k ∈ OrderedMap.keys o)) as [Hin|Hnin].
  - rewrite Hk. split; [|intros [<- |[_ Hs]]; [apply Hk, Hin | exact Hs]].
    intros Hs. destruct (decide (k = k')) as [-> |Hne]; [left; reflexivity|].
    right. split; assumption.
  - rewrite elem_of_app, list_elem_of_singleton, Hk.
    split.
    + intros [Hs| ->]; [|left; reflexivity].
      destruct (decide (k = k')) as [-> |Hne]; [left; reflexivity|].
      right. split; assumption.
    + intros [<- |[_ Hs]]; [right; reflexivity | left; exact Hs].
Qed.

Lemma set_all_snoc kvs k v (o : OrderedMap.orderedMap) :
  set_all (kvs ++ [(k, v)]) o
  = match set_all kvs o with
    | Some o' => OrderedMap.set o' k v
    | None => None
    end.
Proof.
  revert o. induction kvs as [|[k0 v0] kvs IH]; intros o; cbn.
  - destruct (OrderedMap.set o k v); reflexivity.
  - destruct (OrderedMap.set o k0 v0) as [o'|]; [apply IH | reflexivity].
Qed.

Lemma first_occurrences_snoc (l : list string) (k : string) :
  first_occurrences (l ++ [k])
  = if decide (k ∈ first_occurrences l) then first_occurrences l
    else first_occurrences l ++ [k].
Proof.
  unfold first_occurrences. rewrite reverse_snoc. cbn [remove_dups].
  destruct (decide_rel elem_of k (reverse l)) as [Hin|Hnin].
  - rewrite decide_True; [reflexivity|].
    apply elem_of_reverse, elem_of_remove_dups. exact Hin.
  - rewrite decide_False.
    + rewrite reverse_cons. reflexivity.
    + intros Hin. apply Hnin. apply elem_of_remove_dups, elem_of_reverse. exact Hin.
Qed.

Lemma first_occurrences_NoDup (l : list string) : NoDup (first_occurrences l).
Proof. unfold first_occurrences. rewrite reverse_Permutation. apply NoDup_remove_dups. Qed.

Lemma first_occurrences_elem (l : list string) (k : string) :
  k ∈ first_occurrences l <-> k ∈ l.
Proof.
  unfold first_occurrences.
  rewrite elem_of_reverse, elem_of_remove_dups, elem_of_reverse. reflexivity.
Qed.

Lemma first_occurrences_NoDup_id (l : list string) : NoDup l -> first_occurrences l = l.
Proof.
  induction l as [|k l IH] using rev_ind; [reflexivity|].
  intros Hnd. apply NoDup_app in Hnd as (Hl & Hdisj & _).
  rewrite first_occurrences_snoc, (IH Hl).
  rewrite decide_False; [reflexivity|].
  intros Hin. apply (Hdisj k Hin). left.
Qed.

Lemma set_all_ok (kvs : list (string * list Byte.byte)) :
  exists o,
    set_all kvs OrderedMap.newOrderedMap = Some o
    /\ orderedMap_ok o (list_to_map (reverse kvs))
    /\ OrderedMap.keys o = first_occurrences (kvs.*1).
Proof.
  induction kvs as [|[k v] kvs (o & Hrun & Hok & Hkeys)] using rev_ind.
  - exists OrderedMap.newOrderedMap. split; [reflexivity|].
    split; [|reflexivity]. split; [reflexivity|].
    intros k. cbn. rewrite lookup_empty. split.
    + intros Hin. inversion Hin.
    + intros [x Hx]. discriminate Hx.
  - destruct (orderedMap_set_ok o _ k v Hok) as (o' & Hset & Hok' & Hkeys').
    exists o'. rewrite set_all_snoc, Hrun. split; [exact Hset|].
    rewrite reverse_snoc. cbn [list_to_map foldr fst snd uncurry curry].
    split; [exact Hok'|].
    rewrite fmap_app. cbn [fmap list_fmap fst].
    rewrite first_occurrences_snoc, Hkeys', Hkeys. reflexivity.
Qed.

(** X26.  [orderedMap] keeps every key once, where it was first set, with the
    value last set.  Setting any pairs one after the other in a new ordered
    map does not panic; the keys end up without repetition, in the order
    in which they were first set, and each holds the value of its last
    assignment. *)
Theorem orderedMap_first_position_last_value :
  forall kvs : list (string * list Byte.byte),
    exists o,
      set_all kvs OrderedMap.newOrderedMap = Some o
      /\ OrderedMap.keys o = first_occurrences (kvs.*1)
      /\ NoDup (OrderedMap.keys o)
      /\ (forall k, k ∈ OrderedMap.keys o <-> k ∈ kvs.*1)
      /\ OrderedMap.values o = Some (list_to_map (reverse kvs))
      /\ forall k v, OrderedMap.values o ≫= (.!! k) = Some v ->
           exists i, kvs !! i = Some (k, v)
                     /\ forall j w, kvs !! j = Some (k, w) -> j <= i.
Proof.
  intros kvs. destruct (set_all_ok kvs) as (o & Hrun & [Hv Hk] & Hkeys).
  exists o. split; [exact Hrun|]. split; [exact Hkeys|].
  split; [rewrite Hkeys; apply first_occurrences_NoDup|].
  split; [intros k; rewrite Hkeys; apply first_occurrences_elem|].
  split; [exact Hv|].
  intros k v. rewrite Hv. cbn. clear.
  induction kvs as [|[k0 v0] kvs IH] using rev_ind; [rewrite reverse_nil; cbn; rewrite lookup_empty; discriminate|].
  rewrite reverse_snoc. cbn [list_to_map foldr uncurry curry fst snd].
  intros Hl. apply lookup_insert_Some in Hl as [[<- <-]|[Hne Hl]].
  - exists (length kvs). split.
    + rewrite lookup_app_r by lia. rewrite Nat.sub_diag. reflexivity.
    + intros j w Hj. apply lookup_lt_Some in Hj. rewrite length_app in Hj. cbn in Hj. lia.
  - destruct (IH Hl) as (i & Hi & Hmax). exists i. split.
    + rewrite lookup_app_l by (eapply lookup_lt_Some; exact Hi). exact Hi.
    + intros j w Hj. destruct (decide (j < length kvs)) as [Hlt|Hge].
      * rewrite lookup_app_l in Hj by exact Hlt. apply (Hmax j w Hj).
      * rewrite lookup_app_r in Hj by lia.
        destruct (j - length kvs) as [|n]; cbn in Hj; [|discriminate].
        injection Hj as -> _. contradiction.
Qed.

(** The pairs the rebuilding loop sets. *)
Lemma rebuild_as_set_all (order : list string) (m : gmap string (list Byte.byte))
    (o : OrderedMap.orderedMap) :
  OrderedMap.rebuild order m o
  = set_all (omap (fun k => pair k <$> m !! k) order) o.
Proof.
  revert o. induction order as [|k order IH]; intros o; [reflexivity|].
  cbn [OrderedMap.rebuild omap list_omap]. destruct (m !! k) as [v|]; cbn.
  - destruct (OrderedMap.set o k v) as [o'|]; [apply IH | reflexivity].
  - apply IH.
Qed.

Lemma rebuilt_keys (order : list string) (m : gmap string (list Byte.byte)) :
  (omap (fun k => pair k <$> m !! k) order).*1
  = filter (fun k => is_Some (m !! k)) order.
Proof.
  induction order as [|k order IH]; [reflexivity|].
  cbn [omap list_omap]. rewrite filter_cons.
  destruct (m !! k) as [v|] eqn:E; cbn.
  - rewrite decide_True by eauto. rewrite <- IH. reflexivity.
  - rewrite decide_False by (intros [x Hx]; discriminate Hx). exact IH.
Qed.

Lemma rebuilt_lookup (order : list string) (m : gmap string (list Byte.byte)) (k : string) :
  (list_to_map (reverse (omap (fun k => pair k <$> m !! k) order))
     : gmap string (list Byte.byte)) !! k
  = if decide (k ∈ order) then m !! k else None.
Proof.
  induction order as [|k0 order IH] using rev_ind.
  - cbn. rewrite lookup_empty. rewrite decide_False; [reflexivity|].
    intros Hin. inversion Hin.
  - rewrite omap_app. cbn [omap list_omap].
    destruct (m !! k0) as [v|] eqn:E; cbn [fmap option_fmap option_map].
    + rewrite reverse_snoc. cbn [list_to_map foldr uncurry curry fst snd].
      destruct (decide (k = k0)) as [-> | Hne].
      * rewrite lookup_insert_eq, E. rewrite decide_True; [reflexivity|].
        apply elem_of_app. right. left.
      * rewrite lookup_insert_ne by congruence. rewrite IH.
        destruct (decide (k ∈ order)) as [Hin|Hnin].
        -- rewrite decide_True; [reflexivity|]. apply elem_of_app. left. exact Hin.
        -- rewrite decide_False; [reflexivity|].
           rewrite elem_of_app, list_elem_of_singleton. tauto.
    + rewrite app_nil_r, IH.
      destruct (decide (k = k0)) as [-> | Hne].
      * rewrite E. destruct (decide (k0 ∈ order)), (decide (k0 ∈ order ++ [k0]));
          reflexivity.
      * destruct (decide (k ∈ order)) as [Hin|Hnin].
        -- rewrite decide_True; [reflexivity|]. apply elem_of_app. left. exact Hin.
        -- rewrite decide_False; [reflexivity|].
           rewrite elem_of_app, list_elem_of_singleton. tauto.
Qed.

Lemma joined_cons (sep p q : list Byte.byte) (rest : list (list Byte.byte)) :
  joined sep (p :: q :: rest) = p ++ sep ++ joined sep (q :: rest).
Proof. reflexivity. Qed.

Lemma MarshalJSON_loop_joined (json_Marshal : string -> list Byte.byte)
    (o : OrderedMap.orderedMap) (ks : list string) :
  forall (i : nat) (buf : list Byte.byte),
    OrderedMap.MarshalJSON_loop json_Marshal i ks o buf
    = buf ++ match ks with
             | [] => []
             | _ => (if (0 <? i)%nat then bytes_of "," else [])
                    ++ joined (bytes_of ",")
                         (map (fun k => json_Marshal k ++ bytes_of ":"
                                        ++ OrderedMap.value_at o k) ks)
             end.
Proof.
  induction ks as [|k ks IH]; intros i buf; [cbn; rewrite app_nil_r; reflexivity|].
  cbn [OrderedMap.MarshalJSON_loop]. rewrite IH.
  destruct ks as [|k' ks].
  - cbn [map joined]. rewrite app_nil_r.
    destruct (0 <? i)%nat; rewrite <- ?app_assoc; reflexivity.
  - change (0 <? S i)%nat with true. cbv iota. cbn [map].
    rewrite !joined_cons. destruct (0 <? i)%nat; rewrite <- ?app_assoc; reflexivity.
Qed.

(** X27.  The loops of [main] that rebuild an object put the entries of the
    map in the order of the key list, and keep nothing else.  Rebuilding
    does not panic; the ordered map has the keys of the list that the map
    has an entry for, each once, in the order of their first occurrence in
    the list (the list filtered, when it has no repetition); every key
    holds the map's value; an entry of the map whose key is not in the list
    is dropped; and [MarshalJSON] writes, between braces and separated by
    commas, each key, a colon and the map's value, in that order. *)
Theorem rebuild_restores_key_order :
  forall (json_Marshal : string -> list Byte.byte)
         (order : list string) (m : gmap string (list Byte.byte)),
    exists o,
      OrderedMap.rebuild order m OrderedMap.newOrderedMap = Some o
      /\ OrderedMap.keys o
         = first_occurrences (filter (fun k => is_Some (m !! k)) order)
      /\ (NoDup order ->
            OrderedMap.keys o = filter (fun k => is_Some (m !! k)) order)
      /\ (forall k, OrderedMap.values o ≫= (.!! k)
                    = if decide (k ∈ order) then m !! k else None)
      /\ OrderedMap.MarshalJSON json_Marshal o
         = (bytes_of "{"
              ++ joined (bytes_of ",")
                   (map (fun k => json_Marshal k ++ bytes_of ":" ++ default [] (m !! k))
                        (OrderedMap.keys o))
              ++ bytes_of "}",
            None).
Proof.
  intros json_Marshal order m.
  destruct (set_all_ok (omap (fun k => pair k <$> m !! k) order))
    as (o & Hrun & [Hv Hk] & Hkeys).
  rewrite rebuilt_keys in Hkeys.
  exists o. split; [rewrite rebuild_as_set_all; exact Hrun|].
  split; [exact Hkeys|].
  split.
  { intros Hnd. rewrite Hkeys. apply first_occurrences_NoDup_id.
    apply NoDup_filter, Hnd. }
  assert (Hval : forall k, OrderedMap.values o ≫= (.!! k)
                           = if decide (k ∈ order) then m !! k else None).
  { intros k. rewrite Hv. cbn. apply rebuilt_lookup. }
  split; [exact Hval|].
  unfold OrderedMap.MarshalJSON. rewrite MarshalJSON_loop_joined.
  f_equal. rewrite <- app_assoc. f_equal.
  assert (Hitems : map (fun k => json_Marshal k ++ bytes_of ":" ++ OrderedMap.value_at o k)
                       (OrderedMap.keys o)
                   = map (fun k => json_Marshal k ++ bytes_of ":" ++ default [] (m !! k))
                         (OrderedMap.keys o)).
  { apply map_ext_in. intros k Hin. do 2 f_equal.
    unfold OrderedMap.value_at. specialize (Hval k). rewrite Hv in Hval |- *.
    cbn in Hval. rewrite Hval.
    rewrite decide_True; [reflexivity|].
    apply list_elem_of_In in Hin. rewrite Hkeys in Hin.
    apply first_occurrences_elem, list_elem_of_filter in Hin. apply Hin. }
  rewrite Hitems. destruct (OrderedMap.keys o); reflexivity.
Qed.

Example rebuild_drops_renamed_key :
  OrderedMap.MarshalJSON quoted
    <$> OrderedMap.rebuild ["Company"; "Person"; "Address"]
          {[ "Person" := bytes_of "{}"; "Firm" := bytes_of "1"; "Address" := bytes_of "[]" ]}
          OrderedMap.newOrderedMap
  = Some (bytes_of ("{" +:+ String dquote ("Person" +:+ String dquote (":{}," +:+
            String dquote ("Address" +:+ String dquote ":[]}")))),
          None).
Proof. vm_compute. reflexivity. Qed.

(** ** The translation tool: the schema batches *)

Lemma totalBatches_bounds {A : Type} (items : list A) :
  batchSize * totalBatches items < length items + batchSize
  /\ length items <= batchSize * totalBatches items.
Proof.
  unfold totalBatches, batchSize.
  pose proof (Nat.div_mod_eq (length items + 10 - 1) 10) as Hdm.
  pose proof (Nat.mod_upper_bound (length items + 10 - 1) 10 ltac:(lia)) as Hub.
  lia.
Qed.

(** The loop from the [j]-th batch on, given fuel for the batches left. *)
Lemma schema_batches_loop_from {A : Type} (items : list A) :
  forall fuel j,
    totalBatches items <= fuel + j ->
    schema_batches_loop fuel (batchSize * j) items
    = map (fun q => (q + 1, take batchSize (drop (batchSize * q) items)))
          (seq j (totalBatches items - j)).
Proof.
  pose proof (totalBatches_bounds items) as [Hlo Hhi].
  induction fuel as [|fuel IH]; intros j Hfuel.
  - replace (totalBatches items - j) with 0 by lia. reflexivity.
  - cbn [schema_batches_loop].
    destruct (batchSize * j <? length items)%nat eqn:Hlt.
    + apply Nat.ltb_lt in Hlt.
      assert (Hj : j < totalBatches items) by (unfold batchSize in *; nia).
      replace (totalBatches items - j) with (S (totalBatches items - S j)) by lia.
      cbn [seq map]. f_equal.
      * f_equal.
        -- unfold batchSize. rewrite Nat.mul_comm, Nat.div_mul by lia. reflexivity.
        -- destruct (Nat.min_spec (batchSize * j + batchSize) (length items))
             as [[_ ->] | [Hge ->]].
           ++ f_equal. lia.
           ++ rewrite !take_ge; [reflexivity | |]; rewrite length_drop; lia.
      * replace (batchSize * j + batchSize) with (batchSize * S j) by lia.
        apply IH. lia.
    + apply Nat.ltb_ge in Hlt.
      replace (totalBatches items - j) with 0; [reflexivity|].
      unfold batchSize in *. nia.
Qed.

Lemma chunks_concat {A : Type} (items : list A) (n : nat) :
  concat (map (fun q => take batchSize (drop (batchSize * q) items)) (seq 0 n))
  = take (batchSize * n) items.
Proof.
  induction n as [|n IH]; [rewrite Nat.mul_0_r; reflexivity|].
  rewrite seq_S, map_app, concat_app, IH. cbn [map concat]. rewrite app_nil_r.
  rewrite take_take_drop. f_equal. lia.
Qed.

(** X28.  The schema batches split the schema items, in order, into groups
    of ten.  Put one after the other the batches give back the items; their
    number is the total announced; they are numbered from one upwards; none
    is empty or has more than ten items, and every batch but the last has
    ten.  The loop ends by its own condition: with any fuel that is at least
    the number of batches it yields the same batches. *)
Theorem schema_batches_partition :
  forall (A : Type) (schemaItems : list A),
    let batches := schema_batches schemaItems in
    concat (map snd batches) = schemaItems
    /\ length batches = totalBatches schemaItems
    /\ map fst batches = seq 1 (totalBatches schemaItems)
    /\ (forall n batch, In (n, batch) batches ->
          1 <= length batch <= batchSize
          /\ (n < totalBatches schemaItems -> length batch = batchSize))
    /\ (forall fuel, totalBatches schemaItems <= fuel ->
          schema_batches_loop fuel 0 schemaItems = batches).
Proof.
  intros A items. cbv zeta.
  pose proof (totalBatches_bounds items) as [Hlo Hhi].
  assert (Hfrom : forall fuel, totalBatches items <= fuel ->
            schema_batches_loop fuel 0 items
            = map (fun q => (q + 1, take batchSize (drop (batchSize * q) items)))
                  (seq 0 (totalBatches items))).
  { intros fuel Hfuel.
    pose proof (schema_batches_loop_from items fuel 0) as H0.
    rewrite Nat.mul_0_r, Nat.sub_0_r in H0. apply H0. lia. }
  assert (Hall : schema_batches items
                 = map (fun q => (q + 1, take batchSize (drop (batchSize * q) items)))
                       (seq 0 (totalBatches items))).
  { apply Hfrom. unfold batchSize in *. lia. }
  rewrite Hall.
  split; [|split; [|split; [|split]]].
  - rewrite map_map. cbn [snd]. rewrite chunks_concat. apply take_ge. lia.
  - rewrite length_map, length_seq. reflexivity.
  - rewrite map_map. cbn [fst]. rewrite <- seq_shift, map_ext with (g := S); [reflexivity|].
    intros q. lia.
  - intros n batch Hin. apply in_map_iff in Hin as (q & Heq & Hq).
    injection Heq as <- <-. apply in_seq in Hq.
    rewrite length_take, length_drop. unfold batchSize in *. lia.
  - intros fuel Hfuel. apply Hfrom, Hfuel.
Qed.

Example schema_batches_of_23 :
  schema_batches (seq 0 23)
  = [ (1, seq 0 10); (2, seq 10 10); (3, seq 20 3) ]
  /\ totalBatches (seq 0 23) = 3.
Proof. split; vm_compute; reflexivity. Qed.
